(** * Market-data client and options-chain screen

    A shallow embedding of the market-data REST client (the service module
    exporting [fetchStockPrice], [searchStocks], [fetchHistoricalPrices],
    [fetchOptionsData], [fetchOptionsExpirations], [fetchMarketStatus]) and
    of the subscription bookkeeping of [OptionsChainScreen.tsx], followed by
    the properties the specification states about them.

    Modelling conventions.
    - A JavaScript [number] is a rational [Q]: the numbers of a JSON payload
      are finite decimals, comparison and subtraction are exact on them.
      [NaN], the infinities and the rounding of binary64 are outside the
      model; a quotient is only spoken of when its divisor is non-zero.
    - A [string] is a Rocq [string]; the default order of [Array.sort] and
      [String.includes] are taken on its characters.
    - A payload of the provider is a record with the fields the client
      reads; a field is an [option] where the client guards the access with
      [?.], [&&] or [||] ([None] is JavaScript's [undefined]).
    - An [async] function of the client is a computation in the monad
      [M]: it logs the HTTP requests it issues and either returns or
      throws.
    - The screen is a transition system. An [async] function of the
      screen runs up to its next [await] in one step and is then a
      suspended task; a step is the settling of an awaited promise, an
      action of the user, a push of a channel or the unmounting, so that
      the steps of different functions interleave as they do at run
      time. *)

From Stdlib Require Import List String Ascii Bool Arith QArith Lia Lqa.
From Stdlib Require Import Permutation Sorted OrderedTypeEx DecimalString.
Import ListNotations.

Close Scope Q_scope.
Open Scope string_scope.
Open Scope list_scope.
Open Scope nat_scope.

(* ================================================================== *)
(** ** The JavaScript built-ins the code relies on *)

Module Js.

(** [x || d] on an optional number: [undefined], and [0], are falsy. *)
Definition truthy (q : Q) : bool := negb (Qeq_bool q 0%Q).

Definition orNum (x : option Q) (d : Q) : Q :=
  match x with
  | Some q => if truthy q then q else d
  | None => d
  end.

(** An optional string under [if (!s)]: [undefined] and [''] are falsy;
    [truthyStr s] is the string when [!s] is false. *)
Definition truthyStr (s : option string) : option string :=
  match s with
  | Some s => if (s =? "")%string then None else Some s
  | None => None
  end.

(** [a?.f] *)
Definition chain {A B} (a : option A) (f : A -> option B) : option B :=
  match a with
  | Some x => f x
  | None => None
  end.

(** [String.prototype.toLowerCase], on the ASCII letters. *)
Definition lowerAscii (ch : ascii) : ascii :=
  let n := nat_of_ascii ch in
  if (65 <=? n) && (n <=? 90) then ascii_of_nat (n + 32) else ch.

Fixpoint toLowerCase (s : string) : string :=
  match s with
  | EmptyString => EmptyString
  | String ch r => String (lowerAscii ch) (toLowerCase r)
  end.

(** [s.includes(t)]: [t] occurs in [s] as a contiguous substring. *)
Fixpoint includes (s t : string) : bool :=
  String.prefix t s ||
  match s with
  | EmptyString => false
  | String _ r => includes r t
  end.

(** [self.indexOf(value)] on an array of strings, [None] for [-1]. *)
Fixpoint indexOf (self : list string) (value : string) : option nat :=
  match self with
  | [] => None
  | x :: r =>
      if (x =? value)%string then Some 0
      else option_map S (indexOf r value)
  end.

(** [arr.filter((value, index, self) => pred(value, index, self))] *)
Fixpoint filteri_from {A} (pred : A -> nat -> bool) (i : nat) (l : list A)
  : list A :=
  match l with
  | [] => []
  | x :: r =>
      if pred x i then x :: filteri_from pred (S i) r
      else filteri_from pred (S i) r
  end.

Definition filteri {A} (pred : A -> nat -> list A -> bool) (l : list A)
  : list A :=
  filteri_from (fun x i => pred x i l) 0 l.

(** [Array.prototype.sort(cmp)]: the sort is stable (ECMAScript 2019);
    [lt a b] says that the comparator puts [a] strictly before [b]
    ([cmp(a, b) < 0]). An element goes in front of the first element of
    the sorted rest that is not strictly before it. *)
Section Sort.
Variable A : Type.
Variable lt : A -> A -> bool.

Fixpoint insert (x : A) (l : list A) : list A :=
  match l with
  | [] => [x]
  | y :: r => if lt y x then y :: insert x r else x :: y :: r
  end.

Fixpoint sort (l : list A) : list A :=
  match l with
  | [] => []
  | x :: r => insert x (sort r)
  end.
End Sort.
Arguments insert {A} lt x l.
Arguments sort {A} lt l.

(** [arr.sort()] on strings: ascending in the order of the characters. *)
Definition sortStrings (l : list string) : list string :=
  sort String.ltb l.

(** [x < 0] on numbers, as the comparator of
    [arr.sort((a, b) => key(a) - key(b))] is read. *)
Definition negative (x : Q) : bool := negb (Qle_bool 0%Q x).

End Js.

(* ================================================================== *)
(** ** The market-data client *)

Module Polygon.

(** *** Interfaces exported by the service *)

Record StockData := {
  ticker : string;
  name : option string;
  currentPrice : Q;
  previousClose : Q;
  change : Q;
  changePercent : Q
}.

Record OptionGreeks := {
  delta : Q;
  gamma : Q;
  theta : Q;
  vega : Q;
  rho : option Q
}.

Record OptionData := {
  symbol : string;
  underlyingSymbol : string;
  expirationDate : string;
  strikePrice : Q;
  optionType : string;          (* 'call' | 'put' *)
  lastPrice : Q;
  bidPrice : Q;
  askPrice : Q;
  openInterest : Q;
  volume : Q;
  impliedVolatility : Q;
  greeks : OptionGreeks
}.

Module History.
Record HistoricalPriceData := {
  date : string;
  open : Q;
  high : Q;
  close : Q;
  low : Q;
  volume : Q
}.
End History.

(** The rows [searchStocks] returns. *)
Module Search.
Record SymbolMatch := {
  symbol : string;
  name : string;
  market : string;
  primaryExchange : string;
  type : string
}.
End Search.

(** The object [fetchMarketStatus] returns. *)
Module Status.
Record Exchanges := { nasdaq : string; nyse : string; otc : string }.
Record Currencies := { fx : string; crypto : string }.
Record MarketStatus := {
  market : string;
  serverTime : string;
  exchanges : Exchanges;
  currencies : Currencies
}.
End Status.

(** *** Payloads of the provider, with the fields the client reads *)

Module Payload.

(** A bar of [/v2/aggs]: [t] its time stamp, [o h l c v] the prices
    and the volume. *)
Record Agg := { t : Q; o : Q; h : Q; l : Q; c : Q; v : Q }.

(** A row of [/v3/reference/tickers]. *)
Module Ticker.
Record row := {
  ticker : string;
  name : string;
  market : string;
  primary_exchange : string;
  type : string
}.
End Ticker.

(** A row of [/v3/reference/options/contracts]. *)
Record Contract := {
  ticker : string;
  underlying_ticker : string;
  expiration_date : string;
  strike_price : Q;
  contract_type : string
}.

(** [results] of [/v2/last/trade]. *)
Module Trade.
Record results := { p : option Q }.
End Trade.

(** [results] of [/v3/snapshot/options]. *)
Module Snapshot.
Record price := { p : option Q }.
Record bar := { v : option Q }.
Record sensitivities := {
  delta : option Q;
  gamma : option Q;
  theta : option Q;
  vega : option Q;
  rho : option Q
}.
Record results := {
  bid : option price;
  ask : option price;
  open_interest : option Q;
  day : option bar;
  implied_volatility : option Q;
  greeks : option sensitivities
}.
End Snapshot.

End Payload.

(** *** Requests, errors and the world the client runs against *)

Inductive Timespan := day | week | month | quarter | year.

Inductive Request :=
| GetPrev (symbol : string)
| GetTickers (query : string)
| GetAggs (symbol : string) (timespan : Timespan) (from to : string)
          (limit : Q)
| GetContracts (underlying : string) (expiration : option string)
| GetLastTrade (optionSymbol : string)
| GetSnapshot (optionSymbol : string)
| GetMarketStatus.

Inductive Error :=
| RequestFailed (detail : string)   (* [axios.get] rejected *)
| JsError (message : string).       (* [new Error(message)], [RangeError] *)

Inductive Result (A : Type) :=
| Ok (a : A)
| Throw (e : Error).
Arguments Ok {A} a.
Arguments Throw {A} e.

(** [response.data] *)
Record Body (R : Type) := { results : option R }.
Arguments results {R} _.

(** What the provider answers to each request, the clock and the
    formatting of a time stamp as a date
    ([new Date(t).toISOString().split('T')[0]], which throws a
    [RangeError] on an invalid time value). *)
Record World := {
  prevClose : string -> Result (Body (list Payload.Agg));
  tickers : string -> Result (Body (list Payload.Ticker.row));
  aggregates : string -> Timespan -> string -> string -> Q ->
               Result (Body (list Payload.Agg));
  contracts : string -> option string ->
              Result (Body (list Payload.Contract));
  lastTrade : string -> Result (Body Payload.Trade.results);
  snapshot : string -> Result (Body Payload.Snapshot.results);
  marketStatus : Result Status.MarketStatus;
  now : string;
  isoDate : Q -> Result string
}.

(** *** The monad of an [async] function *)

Definition M (A : Type) : Type := (list Request * Result A)%type.

Definition ret {A} (a : A) : M A := ([], Ok a).
Definition throw {A} (e : Error) : M A := ([], Throw e).

Definition bind {A B} (m : M A) (f : A -> M B) : M B :=
  match m with
  | (sent, Ok a) => let (sent', r) := f a in (sent ++ sent', r)
  | (sent, Throw e) => (sent, Throw e)
  end.

(** [try { m } catch (error) { handler(error) }] *)
Definition tryCatch {A} (m : M A) (handler : Error -> M A) : M A :=
  match m with
  | (sent, Ok a) => (sent, Ok a)
  | (sent, Throw e) => let (sent', r) := handler e in (sent ++ sent', r)
  end.

(** [await axios.get(url, ...)]: one request, answered by the world. *)
Definition get {A} (req : Request) (answer : Result A) : M A :=
  ([req], answer).

(** A synchronous computation that may throw. *)
Definition lift {A} (r : Result A) : M A := ([], r).

Definition requests {A} (m : M A) : list Request := fst m.
Definition outcome {A} (m : M A) : Result A := snd m.

Notation "x <- m ;; k" := (bind m (fun x => k))
  (at level 61, m at next level, right associativity).

(** [arr.map(f)] with a synchronous [f] that may throw: the results in
    the order of the array, or the first failure. *)
Fixpoint mapM {A B} (f : A -> M B) (l : list A) : M (list B) :=
  match l with
  | [] => ret []
  | x :: r => y <- f x ;; ys <- mapM f r ;; ret (y :: ys)
  end.

(** [Promise.all(arr.map(async ...))]. [arr.map] calls the [async]
    function on every element before [Promise.all] is reached, and each
    call runs up to its first [await]: the first requests of all branches
    are sent, in the order of the array, before any answer is handled.
    Answers are taken to arrive in the order of their requests, so the
    branches go on round after round: round [k] holds the [k]-th request
    of every branch that sends one, in the order of the array. *)
Fixpoint zipCons (sent : list Request) (later : list (list Request))
  : list (list Request) :=
  match sent, later with
  | [], _ => later
  | req :: sent', [] => [req] :: zipCons sent' []
  | req :: sent', round :: later' => (req :: round) :: zipCons sent' later'
  end.

Definition rounds (branches : list (list Request)) : list (list Request) :=
  fold_right zipCons [] branches.

(** The promise of [Promise.all] is rejected with the first rejection in
    time: that of the branch that throws after the fewest rounds, the one
    that comes first in the array among these. The other branches run on.
    Without a rejection it is fulfilled with the values in the order of
    the array. *)
Fixpoint firstRejection {B} (branches : list (M B)) : option (nat * Error) :=
  match branches with
  | [] => None
  | (_, Ok _) :: rest => firstRejection rest
  | (sent, Throw e) :: rest =>
      match firstRejection rest with
      | Some (n, e') =>
          if n <? List.length sent then Some (n, e')
          else Some (List.length sent, e)
      | None => Some (List.length sent, e)
      end
  end.

Fixpoint fulfilled {B} (branches : list (M B)) : list B :=
  match branches with
  | [] => []
  | (_, Ok b) :: rest => b :: fulfilled rest
  | (_, Throw _) :: rest => fulfilled rest
  end.

Definition promiseAll {A B} (f : A -> M B) (l : list A) : M (list B) :=
  let branches := map f l in
  (List.concat (rounds (map requests branches)),
   match firstRejection branches with
   | Some (_, e) => Throw e
   | None => Ok (fulfilled branches)
   end).

(** *** The operations *)

Import Js.

(** Function to fetch current stock price. [console.error] in the
    handlers has no effect on the result and is left out. Numbers are
    rationals: the difference and the quotient are exact where the code
    rounds them to binary64, and the quotient by an open of 0, which is
    [Infinity] or [NaN] in the code, has no counterpart here. What is
    stated of [change] and [changePercent] is the operations that fill
    them and their sign, not equations between their values, and nothing
    is stated of [changePercent] at an open of 0. *)
Definition fetchStockPrice (w : World) (symbol : string) : M StockData :=
  tryCatch
    (response <- get (GetPrev symbol) (prevClose w symbol) ;;
     match results response with
     | Some (result :: _) =>
         let change := (Payload.c result - Payload.o result)%Q in
         let changePercent := (change / Payload.o result * 100)%Q in
         ret {| ticker := symbol;
                name := None;
                currentPrice := Payload.c result;
                previousClose := Payload.o result;
                change := change;
                changePercent := changePercent |}
     | _ => throw (JsError "No data available")
     end)
    (fun error => throw error).

(** Function to search for stocks by keyword or symbol. *)
Definition searchStocks (w : World) (query : string)
  : M (list Search.SymbolMatch) :=
  tryCatch
    (response <- get (GetTickers query) (tickers w query) ;;
     match results response with
     | Some items =>
         ret (map (fun item =>
                     {| Search.symbol := Payload.Ticker.ticker item;
                        Search.name := Payload.Ticker.name item;
                        Search.market := Payload.Ticker.market item;
                        Search.primaryExchange :=
                          Payload.Ticker.primary_exchange item;
                        Search.type := Payload.Ticker.type item |})
                  items)
     | None => ret []
     end)
    (fun _ => ret []).

(** Function to fetch historical price data. *)
Definition fetchHistoricalPrices (w : World) (symbol : string)
    (timespan : Timespan) (from to : string) (limit : Q)
  : M (list History.HistoricalPriceData) :=
  tryCatch
    (response <- get (GetAggs symbol timespan from to limit)
                     (aggregates w symbol timespan from to limit) ;;
     match results response with
     | Some items =>
         mapM (fun item =>
                 d <- lift (isoDate w (Payload.t item)) ;;
                 ret {| History.date := d;
                        History.open := Payload.o item;
                        History.high := Payload.h item;
                        History.low := Payload.l item;
                        History.close := Payload.c item;
                        History.volume := Payload.v item |})
              items
     | None => ret []
     end)
    (fun _ => ret []).

(** Function to fetch available expiration dates for options. *)
Definition firstOccurrence (value : string) (index : nat)
    (self : list string) : bool :=
  match indexOf self value with
  | Some i => i =? index
  | None => false
  end.

Definition fetchOptionsExpirations (w : World) (underlyingSymbol : string)
  : M (list string) :=
  tryCatch
    (response <- get (GetContracts underlyingSymbol None)
                     (contracts w underlyingSymbol None) ;;
     match results response with
     | Some ((_ :: _) as rows) =>
         let expirationDates :=
           sortStrings
             (filteri firstOccurrence
                (map Payload.expiration_date rows)) in
         ret expirationDates
     | _ => ret []
     end)
    (fun error => throw error).

(** Function to fetch details for a specific option contract. *)
Module Details.
Record t := {
  lastPrice : Q;
  bidPrice : Q;
  askPrice : Q;
  openInterest : Q;
  volume : Q;
  impliedVolatility : Q;
  greeks : OptionGreeks
}.
End Details.

Definition defaultDetails : Details.t :=
  {| Details.lastPrice := 0;
     Details.bidPrice := 0;
     Details.askPrice := 0;
     Details.openInterest := 0;
     Details.volume := 0;
     Details.impliedVolatility := 0;
     Details.greeks :=
       {| delta := 0; gamma := 0; theta := 0; vega := 0;
          rho := Some 0%Q |} |}.

Definition fetchOptionDetails (w : World) (optionSymbol : string)
  : M Details.t :=
  tryCatch
    (tradeResponse <- get (GetLastTrade optionSymbol)
                          (lastTrade w optionSymbol) ;;
     snapshotResponse <- get (GetSnapshot optionSymbol)
                             (snapshot w optionSymbol) ;;
     let lastPrice :=
       orNum (chain (results tradeResponse) Payload.Trade.p) 0 in
     let snapshot := results snapshotResponse in
     let sens := chain snapshot Payload.Snapshot.greeks in
     let details :=
       {| Details.lastPrice := lastPrice;
          Details.bidPrice :=
            orNum (chain (chain snapshot Payload.Snapshot.bid)
                         Payload.Snapshot.p) 0;
          Details.askPrice :=
            orNum (chain (chain snapshot Payload.Snapshot.ask)
                         Payload.Snapshot.p) 0;
          Details.openInterest :=
            orNum (chain snapshot Payload.Snapshot.open_interest) 0;
          Details.volume :=
            orNum (chain (chain snapshot Payload.Snapshot.day)
                         Payload.Snapshot.v) 0;
          Details.impliedVolatility :=
            orNum (chain snapshot Payload.Snapshot.implied_volatility) 0;
          Details.greeks :=
            {| delta := orNum (chain sens Payload.Snapshot.delta) 0;
               gamma := orNum (chain sens Payload.Snapshot.gamma) 0;
               theta := orNum (chain sens Payload.Snapshot.theta) 0;
               vega := orNum (chain sens Payload.Snapshot.vega) 0;
               rho :=
                 Some (orNum (chain sens Payload.Snapshot.rho) 0) |} |}
     in
     ret details)
    (fun _ => ret defaultDetails).

(** Function to fetch options data for a specific symbol. The object
    [details.greeks] is truthy, so [details.greeks || {...}] is
    [details.greeks]. *)
Definition toOptionData (option : Payload.Contract) (details : Details.t)
  : OptionData :=
  {| symbol := Payload.ticker option;
     underlyingSymbol := Payload.underlying_ticker option;
     expirationDate := Payload.expiration_date option;
     strikePrice := Payload.strike_price option;
     optionType := toLowerCase (Payload.contract_type option);
     lastPrice := orNum (Some (Details.lastPrice details)) 0;
     bidPrice := orNum (Some (Details.bidPrice details)) 0;
     askPrice := orNum (Some (Details.askPrice details)) 0;
     openInterest := orNum (Some (Details.openInterest details)) 0;
     volume := orNum (Some (Details.volume details)) 0;
     impliedVolatility :=
       orNum (Some (Details.impliedVolatility details)) 0;
     greeks := Details.greeks details |}.

Definition fetchOptionsData (w : World) (underlyingSymbol : string)
    (expirationDate : option string) : M (list OptionData) :=
  tryCatch
    (expDate <-
       match truthyStr expirationDate with
       | None =>                                   (* [if (!expDate)] *)
           expirations <- fetchOptionsExpirations w underlyingSymbol ;;
           match expirations with
           | first :: _ => ret first
           | [] => throw (JsError "No expiration dates available")
           end
       | Some given => ret given
       end ;;
     response <- get (GetContracts underlyingSymbol (Some expDate))
                     (contracts w underlyingSymbol (Some expDate)) ;;
     match results response with
     | Some ((_ :: _) as rows) =>
         promiseAll
           (fun option =>
              details <- fetchOptionDetails w (Payload.ticker option) ;;
              ret (toOptionData option details))
           rows
     | _ => ret []
     end)
    (fun error => throw error).

(** Function to fetch market status. *)
Definition closedStatus (w : World) : Status.MarketStatus :=
  {| Status.market := "closed";
     Status.serverTime := now w;
     Status.exchanges :=
       {| Status.nasdaq := "closed";
          Status.nyse := "closed";
          Status.otc := "closed" |};
     Status.currencies :=
       {| Status.fx := "closed"; Status.crypto := "open" |} |}.

Definition fetchMarketStatus (w : World) : M Status.MarketStatus :=
  tryCatch
    (response <- get GetMarketStatus (marketStatus w) ;;
     ret response)
    (fun _ => ret (closedStatus w)).

(** The statuses a [MarketStatus] reports: that of the market as a whole,
    those of the exchanges and those of the currency markets. *)
Definition reported (status : Status.MarketStatus) : list (string * string) :=
  [ ("market", Status.market status);
    ("nasdaq", Status.nasdaq (Status.exchanges status));
    ("nyse", Status.nyse (Status.exchanges status));
    ("otc", Status.otc (Status.exchanges status));
    ("fx", Status.fx (Status.currencies status));
    ("crypto", Status.crypto (Status.currencies status)) ].

Definition allClosed (status : Status.MarketStatus) : bool :=
  forallb (fun entry => (snd entry =? "closed")%string) (reported status).

End Polygon.

(* ================================================================== *)
(** ** Arrays as objects *)

(** [filter] returns a new array, [sort] sorts the array it is called on
    and returns that same array: arrays live in a store and are named by
    their address. *)
Module Store.
Section Arrays.
Variable A : Type.

Definition ref := nat.
Definition t := list (list A).

Definition read (s : t) (r : ref) : list A := nth r s [].

Fixpoint write (s : t) (r : ref) (a : list A) : t :=
  match s, r with
  | [], _ => []
  | _ :: rest, 0 => a :: rest
  | x :: rest, S r' => x :: write rest r' a
  end.

Definition alloc (s : t) (a : list A) : t * ref :=
  (s ++ [a], List.length s).

(** [arr.filter(pred)] *)
Definition arrayFilter (pred : A -> bool) (r : ref) (s : t) : t * ref :=
  alloc s (filter pred (read s r)).

(** [arr.sort(cmp)] *)
Definition arraySort (lt : A -> A -> bool) (r : ref) (s : t) : t * ref :=
  (write s r (Js.sort lt (read s r)), r).
End Arrays.
Arguments read {A} s r.
Arguments write {A} s r a.
Arguments alloc {A} s a.
Arguments arrayFilter {A} pred r s.
Arguments arraySort {A} lt r s.
End Store.

(* ================================================================== *)
(** ** The options-chain screen *)

Module OptionsChain.

Module P := Polygon.

(** *** The push channel *)

(** Modelled from the spec: [subscribeToStockPrice] and
    [subscribeToOptionData] are imported by the screen but are not part
    of the service module. A subscribe call opens a push channel and
    returns a stop capability; the channel calls [onUpdate] with a
    partial record on each push. A stop capability is named by a number,
    fresh at each subscribe call, and what happens to the channels is
    recorded as a list of effects. The specification provides for a push
    that arrives for a contract already replaced, and the subscriptions of
    a contract set are stopped before the set is replaced: a push may be
    delivered after the stop capability of its channel was invoked. *)
Definition handle := nat.

Inductive Effect :=
| OpenedStock (h : handle)
| OpenedOption (contract : string) (h : handle)
| Stopped (h : handle).

(** The partial record of a push: the fields it carries. *)
Module Update.
Record t := {
  symbol : option string;
  underlyingSymbol : option string;
  expirationDate : option string;
  strikePrice : option Q;
  optionType : option string;
  lastPrice : option Q;
  bidPrice : option Q;
  askPrice : option Q;
  openInterest : option Q;
  volume : option Q;
  impliedVolatility : option Q;
  greeks : option P.OptionGreeks
}.
End Update.

Definition over {A} (new : option A) (old : A) : A :=
  match new with
  | Some x => x
  | None => old
  end.

(** [{ ...opt, ...update }] *)
Definition spread (opt : P.OptionData) (update : Update.t) : P.OptionData :=
  {| P.symbol := over (Update.symbol update) (P.symbol opt);
     P.underlyingSymbol :=
       over (Update.underlyingSymbol update) (P.underlyingSymbol opt);
     P.expirationDate :=
       over (Update.expirationDate update) (P.expirationDate opt);
     P.strikePrice := over (Update.strikePrice update) (P.strikePrice opt);
     P.optionType := over (Update.optionType update) (P.optionType opt);
     P.lastPrice := over (Update.lastPrice update) (P.lastPrice opt);
     P.bidPrice := over (Update.bidPrice update) (P.bidPrice opt);
     P.askPrice := over (Update.askPrice update) (P.askPrice opt);
     P.openInterest :=
       over (Update.openInterest update) (P.openInterest opt);
     P.volume := over (Update.volume update) (P.volume opt);
     P.impliedVolatility :=
       over (Update.impliedVolatility update) (P.impliedVolatility opt);
     P.greeks := over (Update.greeks update) (P.greeks opt) |}.

(** The state updater the callback of [subscribeToOptionData] passes to
    [setOptions]; [subscribed] is [option.symbol] of the closure. *)
Definition mergeUpdate (subscribed : string) (update : Update.t)
    (prevOptions : list P.OptionData) : list P.OptionData :=
  map (fun opt =>
         if (P.symbol opt =? subscribed)%string
         then spread opt update
         else opt)
      prevOptions.

(** *** The display derivation *)

Inductive OptionType := call | put.

Definition typeName (ty : OptionType) : string :=
  match ty with
  | call => "call"
  | put => "put"
  end.

Section Display.
(** [Number.prototype.toString] *)
Variable toString : Q -> string.

Definition shown (optionType : OptionType) (filterText : string)
    (option : P.OptionData) : bool :=
  (P.optionType option =? typeName optionType)%string &&
  ((filterText =? "")%string ||
   Js.includes (toString (P.strikePrice option)) filterText ||
   Js.includes (toString (P.openInterest option)) filterText).

Definition byStrike (a b : P.OptionData) : bool :=
  Js.negative (P.strikePrice a - P.strikePrice b)%Q.

(** [const filteredOptions = options.filter(...).sort(...)], on the
    store; [options] is the address of the state's array. *)
Definition filteredOptions (optionType : OptionType)
    (filterText : string) (options : Store.ref)
    (s : Store.t P.OptionData) : Store.t P.OptionData * Store.ref :=
  let (s1, kept) :=
    Store.arrayFilter (shown optionType filterText) options s in
  Store.arraySort byStrike kept s1.
End Display.

(** *** The subscription lifecycle *)

(** [useRef<Map<string, () => void>>]: a [Map] keeps its keys in the
    order of their insertion, and [set] on a key it holds replaces the
    value of that key. *)
Definition Registry := list (string * handle).

Fixpoint mapSet (key : string) (value : handle) (m : Registry) : Registry :=
  match m with
  | [] => [(key, value)]
  | (k, v) :: rest =>
      if (k =? key)%string then (k, value) :: rest
      else (k, v) :: mapSet key value rest
  end.

(** [m.forEach(unsubscribe => unsubscribe())] *)
Definition stopAll (m : Registry) : list Effect :=
  map (fun entry => Stopped (snd entry)) m.

(** The values of [useState]. *)
Record View := {
  stockPrice : option Q;
  optionType : OptionType;
  expirationDates : list string;
  selectedExpiration : string;
  options : list P.OptionData;
  loading : bool;
  loadingOptions : bool;
  filterText : string
}.

(** An [async] function of the screen suspended at an [await]:
    [loadInitialData] at the stock subscription, at [fetchStockPrice] or
    at [fetchOptionsExpirations]; [loadOptionsData] at
    [fetchOptionsData] or, in its loop, at the subscription of [option]
    with [rest] still to come. [initial] says that [loadInitialData]
    awaits this [loadOptionsData]. *)
Inductive Task :=
| AwaitStockSubscription
| AwaitStockPrice
| AwaitExpirations
| AwaitOptionsData (initial : bool) (expDate : string)
| AwaitOptionSubscription (initial : bool) (option : P.OptionData)
                          (rest : list P.OptionData).

Record State := {
  view : View;
  stockPriceUnsubscribeRef : option handle;
  optionUnsubscribesRef : Registry;
  unmounted : bool;
  pending : list Task;
  effects : list Effect;
  alerts : nat;
  nextHandle : handle
}.

(** The screen after its first render: the effect has called
    [loadInitialData], which awaits [subscribeToStockPrice]. *)
Definition initialView : View :=
  {| stockPrice := None;
     optionType := call;
     expirationDates := [];
     selectedExpiration := "";
     options := [];
     loading := true;
     loadingOptions := false;
     filterText := "" |}.

Definition init : State :=
  {| view := initialView;
     stockPriceUnsubscribeRef := None;
     optionUnsubscribesRef := [];
     unmounted := false;
     pending := [AwaitStockSubscription];
     effects := [];
     alerts := 0;
     nextHandle := 0 |}.

(** A setter of [useState] does nothing once the screen is unmounted. *)
Definition setView (f : View -> View) (s : State) : State :=
  if unmounted s then s
  else {| view := f (view s);
          stockPriceUnsubscribeRef := stockPriceUnsubscribeRef s;
          optionUnsubscribesRef := optionUnsubscribesRef s;
          unmounted := unmounted s;
          pending := pending s;
          effects := effects s;
          alerts := alerts s;
          nextHandle := nextHandle s |}.

Definition setStockPrice (x : option Q) : State -> State :=
  setView (fun v =>
    {| stockPrice := x; optionType := optionType v;
       expirationDates := expirationDates v;
       selectedExpiration := selectedExpiration v; options := options v;
       loading := loading v; loadingOptions := loadingOptions v;
       filterText := filterText v |}).

Definition setOptionType (x : OptionType) : State -> State :=
  setView (fun v =>
    {| stockPrice := stockPrice v; optionType := x;
       expirationDates := expirationDates v;
       selectedExpiration := selectedExpiration v; options := options v;
       loading := loading v; loadingOptions := loadingOptions v;
       filterText := filterText v |}).

Definition setExpirationDates (x : list string) : State -> State :=
  setView (fun v =>
    {| stockPrice := stockPrice v; optionType := optionType v;
       expirationDates := x;
       selectedExpiration := selectedExpiration v; options := options v;
       loading := loading v; loadingOptions := loadingOptions v;
       filterText := filterText v |}).

Definition setSelectedExpiration (x : string) : State -> State :=
  setView (fun v =>
    {| stockPrice := stockPrice v; optionType := optionType v;
       expirationDates := expirationDates v;
       selectedExpiration := x; options := options v;
       loading := loading v; loadingOptions := loadingOptions v;
       filterText := filterText v |}).

(** [setOptions(prevOptions => f(prevOptions))] *)
Definition setOptions (f : list P.OptionData -> list P.OptionData)
  : State -> State :=
  setView (fun v =>
    {| stockPrice := stockPrice v; optionType := optionType v;
       expirationDates := expirationDates v;
       selectedExpiration := selectedExpiration v;
       options := f (options v);
       loading := loading v; loadingOptions := loadingOptions v;
       filterText := filterText v |}).

Definition setLoading (x : bool) : State -> State :=
  setView (fun v =>
    {| stockPrice := stockPrice v; optionType := optionType v;
       expirationDates := expirationDates v;
       selectedExpiration := selectedExpiration v; options := options v;
       loading := x; loadingOptions := loadingOptions v;
       filterText := filterText v |}).

Definition setLoadingOptions (x : bool) : State -> State :=
  setView (fun v =>
    {| stockPrice := stockPrice v; optionType := optionType v;
       expirationDates := expirationDates v;
       selectedExpiration := selectedExpiration v; options := options v;
       loading := loading v; loadingOptions := x;
       filterText := filterText v |}).

Definition setFilterText (x : string) : State -> State :=
  setView (fun v =>
    {| stockPrice := stockPrice v; optionType := optionType v;
       expirationDates := expirationDates v;
       selectedExpiration := selectedExpiration v; options := options v;
       loading := loading v; loadingOptions := loadingOptions v;
       filterText := x |}).

(** The refs and the bookkeeping of the model are written whether the
    screen is mounted or not. *)
Definition withRefs (stock : option handle) (registry : Registry)
    (s : State) : State :=
  {| view := view s;
     stockPriceUnsubscribeRef := stock;
     optionUnsubscribesRef := registry;
     unmounted := unmounted s;
     pending := pending s;
     effects := effects s;
     alerts := alerts s;
     nextHandle := nextHandle s |}.

Definition emit (es : list Effect) (s : State) : State :=
  {| view := view s;
     stockPriceUnsubscribeRef := stockPriceUnsubscribeRef s;
     optionUnsubscribesRef := optionUnsubscribesRef s;
     unmounted := unmounted s;
     pending := pending s;
     effects := effects s ++ es;
     alerts := alerts s;
     nextHandle := nextHandle s |}.

Definition withPending (tasks : list Task) (s : State) : State :=
  {| view := view s;
     stockPriceUnsubscribeRef := stockPriceUnsubscribeRef s;
     optionUnsubscribesRef := optionUnsubscribesRef s;
     unmounted := unmounted s;
     pending := tasks;
     effects := effects s;
     alerts := alerts s;
     nextHandle := nextHandle s |}.

Definition spawn (task : Task) (s : State) : State :=
  withPending (pending s ++ [task]) s.

(** [Alert.alert("Error", ...)] *)
Definition alert (s : State) : State :=
  {| view := view s;
     stockPriceUnsubscribeRef := stockPriceUnsubscribeRef s;
     optionUnsubscribesRef := optionUnsubscribesRef s;
     unmounted := unmounted s;
     pending := pending s;
     effects := effects s;
     alerts := S (alerts s);
     nextHandle := nextHandle s |}.

(** A subscribe call has resolved: its stop capability is fresh. *)
Definition fresh (s : State) : handle * State :=
  (nextHandle s,
   {| view := view s;
      stockPriceUnsubscribeRef := stockPriceUnsubscribeRef s;
      optionUnsubscribesRef := optionUnsubscribesRef s;
      unmounted := unmounted s;
      pending := pending s;
      effects := effects s;
      alerts := alerts s;
      nextHandle := S (nextHandle s) |}).

Definition markUnmounted (s : State) : State :=
  {| view := view s;
     stockPriceUnsubscribeRef := stockPriceUnsubscribeRef s;
     optionUnsubscribesRef := optionUnsubscribesRef s;
     unmounted := true;
     pending := pending s;
     effects := effects s;
     alerts := alerts s;
     nextHandle := nextHandle s |}.

(** The cleanup the effect returns. *)
Definition cleanup (s : State) : State :=
  let s1 :=
    match stockPriceUnsubscribeRef s with
    | Some unsubscribe =>
        withRefs None (optionUnsubscribesRef s)
                 (emit [Stopped unsubscribe] s)
    | None => s
    end in
(* Clean up all option subscriptions *)
let s2 := emit (stopAll (optionUnsubscribesRef s1)) s1 in
withRefs (stockPriceUnsubscribeRef s2) [] s2.

(** [loadOptionsData], up to its first [await]. *)
Definition loadOptionsData (initial : bool) (expDate : string) (s : State)
  : State :=
  let s1 := setLoadingOptions true s in
(* Clear existing option subscriptions *)
let s2 := emit (stopAll (optionUnsubscribesRef s1)) s1 in
let s3 := withRefs (stockPriceUnsubscribeRef s2) [] s2 in
spawn (AwaitOptionsData initial expDate) s3.

(** The [finally] of [loadOptionsData], and that of [loadInitialData]
    when it was awaiting it. *)
Definition finishLoad (initial : bool) (s : State) : State :=
  let s1 := setLoadingOptions false s in
  if initial then setLoading false s1 else s1.

(** The loop of [loadOptionsData] at its next iteration: it calls
    [subscribeToOptionData] for the next option, or is done. *)
Definition subscribeNext (initial : bool) (todo : list P.OptionData)
    (s : State) : State :=
  match todo with
  | option :: rest => spawn (AwaitOptionSubscription initial option rest) s
  | [] => finishLoad initial s
  end.

(** The [catch] and the [finally] of [loadInitialData]. *)
Definition failInitial (s : State) : State :=
  setLoading false (alert s).

(** What an awaited promise settles to. A subscribe call is taken to
    resolve. *)
Inductive Settled :=
| Channel
| Price (r : P.Result P.StockData)
| Dates (r : P.Result (list string))
| Contracts (r : P.Result (list P.OptionData)).

Definition resume (task : Task) (v : Settled) (s : State) : option State :=
  match task, v with
  | AwaitStockSubscription, Channel =>
      let (unsubscribe, s1) := fresh s in
      let s2 := emit [OpenedStock unsubscribe] s1 in
(* Store unsubscribe function for cleanup *)
let s3 := withRefs (Some unsubscribe) (optionUnsubscribesRef s2) s2 in
Some (spawn AwaitStockPrice s3)
    | AwaitStockPrice, Price (P.Ok stockData) =>
Some (spawn AwaitExpirations
        (setStockPrice (Some (P.currentPrice stockData)) s))
    | AwaitStockPrice, Price (P.Throw _) => Some (failInitial s)
    | AwaitExpirations, Dates (P.Ok dates) =>
let s1 := setExpirationDates dates s in
match dates with
| first :: _ =>
    Some (loadOptionsData true first (setSelectedExpiration first s1))
| [] => Some (setLoading false s1)
end
    | AwaitExpirations, Dates (P.Throw _) => Some (failInitial s)
    | AwaitOptionsData initial _, Contracts (P.Ok optionsData) =>
Some (subscribeNext initial optionsData
        (setOptions (fun _ => optionsData) s))
    | AwaitOptionsData initial _, Contracts (P.Throw _) =>
Some (finishLoad initial (alert s))
    | AwaitOptionSubscription initial option rest, Channel =>
let (unsubscribe, s1) := fresh s in
let s2 := emit [OpenedOption (P.symbol option) unsubscribe] s1 in
let s3 :=
  withRefs (stockPriceUnsubscribeRef s2)
           (mapSet (P.symbol option) unsubscribe
                   (optionUnsubscribesRef s2)) s2 in
Some (subscribeNext initial rest s3)
    | _, _ => None
    end.

(** The contract a stop capability was opened for. *)
Fixpoint contractOf (h : handle) (es : list Effect) : option string :=
  match es with
  | [] => None
  | OpenedOption contract h' :: rest =>
      if h' =? h then Some contract else contractOf h rest
  | _ :: rest => contractOf h rest
  end.

Definition isStockHandle (h : handle) (es : list Effect) : bool :=
  existsb (fun e => match e with
                    | OpenedStock h' => h' =? h
                    | _ => false
                    end) es.

Fixpoint removeNth {A} (i : nat) (l : list A) : list A :=
  match l, i with
  | [], _ => []
  | _ :: rest, 0 => rest
  | x :: rest, S j => x :: removeNth j rest
  end.

(** What can happen to the screen: an awaited promise settles (the
    [i]-th suspended function resumes), the user picks an expiration
    date, an option type or a filter, a channel delivers a push to the
    callback it was opened with, whether its stop capability has been
    invoked or not, or the screen is unmounted. *)
Inductive Event :=
| Settle (i : nat) (v : Settled)
| ExpirationChange (expDate : string)
| OptionTypeChange (ty : OptionType)
| FilterChange (text : string)
| StockPush (h : handle) (stockData : P.StockData)
| OptionPush (h : handle) (update : Update.t)
| Unmount.

(** The menu of expiration dates, the buttons and the search bar are
    rendered once [loading] is false. *)
Definition interactive (s : State) : bool :=
  negb (unmounted s) && negb (loading (view s)).

Definition step (s : State) (e : Event) : option State :=
  match e with
  | Settle i v =>
      match nth_error (pending s) i with
      | Some task => resume task v (withPending (removeNth i (pending s)) s)
      | None => None
      end
  | ExpirationChange expDate =>
(* handleExpirationChange *)
if interactive s
then Some (loadOptionsData false expDate
             (setSelectedExpiration expDate s))
else None
    | OptionTypeChange ty =>
if interactive s then Some (setOptionType ty s) else None
    | FilterChange text =>
if interactive s then Some (setFilterText text s) else None
    | StockPush h stockData =>
if isStockHandle h (effects s)
then Some (setStockPrice (Some (P.currentPrice stockData)) s)
else None
    | OptionPush h update =>
match contractOf h (effects s) with
| Some contract => Some (setOptions (mergeUpdate contract update) s)
| None => None
end
    | Unmount =>
if unmounted s then None else Some (markUnmounted (cleanup s))
    end.

Fixpoint run (s : State) (events : list Event) : option State :=
  match events with
  | [] => Some s
  | e :: rest =>
      match step s e with
      | Some s' => run s' rest
      | None => None
      end
  end.

(** The stop capabilities that were invoked, and whether one is live:
    opened and not invoked. *)
Fixpoint stopped (es : list Effect) : list handle :=
  match es with
  | [] => []
  | Stopped h :: rest => h :: stopped rest
  | _ :: rest => stopped rest
  end.

Fixpoint opened (es : list Effect) : list handle :=
  match es with
  | [] => []
  | OpenedStock h :: rest => h :: opened rest
  | OpenedOption _ h :: rest => h :: opened rest
  | Stopped _ :: rest => opened rest
  end.

Definition live (h : handle) (es : list Effect) : Prop :=
  In h (opened es) /\ ~ In h (stopped es).

(** The stop capabilities the screen holds. *)
Definition held (s : State) : list handle :=
  match stockPriceUnsubscribeRef s with
  | Some h => [h]
  | None => []
  end ++ map snd (optionUnsubscribesRef s).

End OptionsChain.

(* ================================================================== *)
(** ** Sample worlds and runs *)

Module Sample.
Import Polygon.

Definition refused {A} : Result A := Throw (RequestFailed "Network Error").

(** The provider cannot be reached. *)
Definition offline : World :=
  {| prevClose := fun _ => refused;
     tickers := fun _ => refused;
     aggregates := fun _ _ _ _ _ => refused;
     contracts := fun _ _ => refused;
     lastTrade := fun _ => refused;
     snapshot := fun _ => refused;
     marketStatus := refused;
     now := "2024-03-01T12:00:00.000Z";
     isoDate := fun _ => Ok "2024-03-01" |}.

(** The provider answers with a body that has no [results]. *)
Definition silent : World :=
  {| prevClose := fun _ => Ok {| results := None |};
     tickers := fun _ => Ok {| results := None |};
     aggregates := fun _ _ _ _ _ => Ok {| results := None |};
     contracts := fun _ _ => Ok {| results := None |};
     lastTrade := fun _ => Ok {| results := None |};
     snapshot := fun _ => Ok {| results := None |};
     marketStatus := refused;
     now := "2024-03-01T12:00:00.000Z";
     isoDate := fun _ => Ok "2024-03-01" |}.

Definition bar (o c : Q) : Payload.Agg :=
  {| Payload.t := 1709251200000; Payload.o := o; Payload.h := c;
     Payload.l := o; Payload.c := c; Payload.v := 1000 |}.

Definition contract (ticker date : string) (strike : Q) (kind : string)
  : Payload.Contract :=
  {| Payload.ticker := ticker;
     Payload.underlying_ticker := "AAPL";
     Payload.expiration_date := date;
     Payload.strike_price := strike;
     Payload.contract_type := kind |}.

Definition listing : list Payload.Contract :=
  [ contract "O:AAPL240621C00150000" "2024-06-21" 150 "call";
    contract "O:AAPL240315C00150000" "2024-03-15" 150 "call";
    contract "O:AAPL240621P00150000" "2024-06-21" 150 "put";
    contract "O:AAPL240621C00155000" "2024-06-21" 155 "CALL" ].

Definition expiring (date : option string) : list Payload.Contract :=
  match date with
  | Some d =>
      filter (fun row => (Payload.expiration_date row =? d)%string) listing
  | None => listing
  end.

Definition quotedAt (x : Q) : Payload.Snapshot.results :=
  {| Payload.Snapshot.bid := Some {| Payload.Snapshot.p := Some x |};
     Payload.Snapshot.ask := Some {| Payload.Snapshot.p := Some (x + 1)%Q |};
     Payload.Snapshot.open_interest := Some 40%Q;
     Payload.Snapshot.day := Some {| Payload.Snapshot.v := Some 7%Q |};
     Payload.Snapshot.implied_volatility := None;
     Payload.Snapshot.greeks := None |}.

(** A provider that lists four contracts, three of them expiring on
    2024-06-21, and whose enrichment requests fail for the second of
    these. *)
Definition market : World :=
  {| prevClose := fun _ => Ok {| results := Some [bar 100 110] |};
     tickers := fun _ => Ok {| results := Some [] |};
     aggregates := fun _ _ _ _ _ => Ok {| results := Some [bar 100 110] |};
     contracts := fun _ date => Ok {| results := Some (expiring date) |};
     lastTrade := fun sym =>
       if (sym =? "O:AAPL240621P00150000")%string then refused
       else Ok {| results := Some {| Payload.Trade.p := Some 5%Q |} |};
     snapshot := fun sym => Ok {| results := Some (quotedAt 4) |};
     marketStatus := refused;
     now := "2024-03-01T12:00:00.000Z";
     isoDate := fun _ => Ok "2024-03-01" |}.

(** A rendering of numbers for the examples: the decimal digits of an
    integral value. *)
Definition decimal (q : Q) : string :=
  NilZero.string_of_int (Z.to_int (Qnum q / Zpos (Qden q))).

Definition quoted (symbol : string) (strike : Q) (kind : string)
    (interest : Q) : OptionData :=
  {| symbol := symbol;
     underlyingSymbol := "AAPL";
     expirationDate := "2024-06-21";
     strikePrice := strike;
     optionType := kind;
     lastPrice := 5;
     bidPrice := 4;
     askPrice := 6;
     openInterest := interest;
     volume := 7;
     impliedVolatility := 0;
     greeks := {| delta := 0; gamma := 0; theta := 0; vega := 0;
                  rho := None |} |}.

Definition optA : OptionData := quoted "A" 155 "call" 40.
Definition optB : OptionData := quoted "B" 150 "call" 12.
Definition optC : OptionData := quoted "C" 150 "put" 15.
Definition optD : OptionData := quoted "D" 145 "call" 15.

(** A push that carries a last price only. *)
Definition lastPriceIs (x : Q) : OptionsChain.Update.t :=
  {| OptionsChain.Update.symbol := None;
     OptionsChain.Update.underlyingSymbol := None;
     OptionsChain.Update.expirationDate := None;
     OptionsChain.Update.strikePrice := None;
     OptionsChain.Update.optionType := None;
     OptionsChain.Update.lastPrice := Some x;
     OptionsChain.Update.bidPrice := None;
     OptionsChain.Update.askPrice := None;
     OptionsChain.Update.openInterest := None;
     OptionsChain.Update.volume := None;
     OptionsChain.Update.impliedVolatility := None;
     OptionsChain.Update.greeks := None |}.

(** Runs of the screen. The screen loads its initial data, two
    expiration dates and the contracts A and B of the first, and
    subscribes to the stock (stop capability 0), to A (1) and to B (2). *)
Definition quote : StockData :=
  {| ticker := "AAPL"; name := None; currentPrice := 110;
     previousClose := 100; change := 10; changePercent := 10 |}.

Definition showAB : list OptionsChain.Event :=
  [ OptionsChain.Settle 0 OptionsChain.Channel;
    OptionsChain.Settle 0 (OptionsChain.Price (Ok quote));
    OptionsChain.Settle 0
      (OptionsChain.Dates (Ok ["2024-06-21"; "2024-09-20"]));
    OptionsChain.Settle 0 (OptionsChain.Contracts (Ok [optA; optB]));
    OptionsChain.Settle 0 OptionsChain.Channel;
    OptionsChain.Settle 0 OptionsChain.Channel ].

Definition shownAB : OptionsChain.State :=
  Eval vm_compute in
    match OptionsChain.run OptionsChain.init showAB with
    | Some s => s
    | None => OptionsChain.init
    end.

(** The screen is unmounted while the contracts of the first expiration
    date are being fetched; the fetch then answers with contract A, and
    the subscription to A resolves. *)
Definition unmountWhileLoading : list OptionsChain.Event :=
  [ OptionsChain.Settle 0 OptionsChain.Channel;
    OptionsChain.Settle 0 (OptionsChain.Price (Ok quote));
    OptionsChain.Settle 0 (OptionsChain.Dates (Ok ["2024-06-21"]));
    OptionsChain.Unmount;
    OptionsChain.Settle 0 (OptionsChain.Contracts (Ok [optA]));
    OptionsChain.Settle 0 OptionsChain.Channel ].

(** The listing names contract A twice; the screen is unmounted after
    both subscriptions have resolved. *)
Definition listedTwice : list OptionsChain.Event :=
  [ OptionsChain.Settle 0 OptionsChain.Channel;
    OptionsChain.Settle 0 (OptionsChain.Price (Ok quote));
    OptionsChain.Settle 0 (OptionsChain.Dates (Ok ["2024-06-21"]));
    OptionsChain.Settle 0 (OptionsChain.Contracts (Ok [optA; optA]));
    OptionsChain.Settle 0 OptionsChain.Channel;
    OptionsChain.Settle 0 OptionsChain.Channel;
    OptionsChain.Unmount ].

(** The states these runs end in. *)
Definition endOf (events : list OptionsChain.Event) : OptionsChain.State :=
  match OptionsChain.run OptionsChain.init events with
  | Some s => s
  | None => OptionsChain.init
  end.

Definition switching : OptionsChain.State :=
  Eval vm_compute in
    endOf (showAB ++ [OptionsChain.ExpirationChange "2024-09-20"]).

Definition staleMerged : OptionsChain.State :=
  Eval vm_compute in
    endOf (showAB ++ [OptionsChain.ExpirationChange "2024-09-20";
                      OptionsChain.OptionPush 1 (lastPriceIs 9)]).

Definition fetchFailed : OptionsChain.State :=
  Eval vm_compute in
    endOf (showAB ++ [OptionsChain.ExpirationChange "2024-09-20";
                      OptionsChain.OptionPush 1 (lastPriceIs 9);
                      OptionsChain.Settle 0
                        (OptionsChain.Contracts
                           (Throw (RequestFailed "timeout")))]).


(** The date that is shown is picked again, the contracts A and B are
    fetched again, and a push arrives on the channel of A that was
    stopped. *)
Definition repicked : OptionsChain.State :=
  Eval vm_compute in
    endOf (showAB ++ [OptionsChain.ExpirationChange "2024-06-21";
                      OptionsChain.Settle 0
                        (OptionsChain.Contracts (Ok [optA; optB]))]).

Definition repickedMerged : OptionsChain.State :=
  Eval vm_compute in
    endOf (showAB ++ [OptionsChain.ExpirationChange "2024-06-21";
                      OptionsChain.Settle 0
                        (OptionsChain.Contracts (Ok [optA; optB]));
                      OptionsChain.OptionPush 1 (lastPriceIs 9)]).

Definition leaked : OptionsChain.State :=
  Eval vm_compute in endOf unmountWhileLoading.

Definition replaced : OptionsChain.State :=
  Eval vm_compute in endOf listedTwice.

End Sample.

(* ================================================================== *)
(** ** Properties of the built-ins *)

Module JsFacts.
Import Js.

(** *** Stable insertion sort *)

Section SortFacts.
Variable A : Type.
Variable lt : A -> A -> bool.

(** [a] is not strictly after [b]. *)
Definition notAfter (a b : A) : Prop := lt b a = false.

Hypothesis lt_asym : forall a b, lt a b = true -> lt b a = false.
Hypothesis notAfter_trans :
  forall a b c, notAfter a b -> notAfter b c -> notAfter a c.

Lemma insert_perm (x : A) (l : list A) : Permutation (insert lt x l) (x :: l).
Proof.
  induction l as [|y r IH]; simpl.
  - apply Permutation_refl.
  - destruct (lt y x).
    + apply perm_trans with (y :: x :: r).
      * apply perm_skip, IH.
      * apply perm_swap.
    + apply Permutation_refl.
Qed.

Lemma sort_perm (l : list A) : Permutation (sort lt l) l.
Proof.
  induction l as [|x r IH]; simpl.
  - apply perm_nil.
  - apply perm_trans with (x :: sort lt r).
    + apply insert_perm.
    + apply perm_skip, IH.
Qed.

Lemma insert_sorted (x : A) (l : list A) :
  StronglySorted notAfter l -> StronglySorted notAfter (insert lt x l).
Proof.
  induction 1 as [|y r Hr IH Hy]; simpl.
  - constructor; constructor.
  - destruct (lt y x) eqn:E.
    + constructor; [exact IH|].
      apply (Permutation_Forall (Permutation_sym (insert_perm x r))).
      constructor; [|exact Hy].
      apply lt_asym, E.
    + constructor; [constructor; assumption|].
      constructor; [exact E|].
      eapply Forall_impl; [|exact Hy].
      intros z Hz. apply notAfter_trans with y; [exact E|exact Hz].
Qed.

Lemma sort_sorted (l : list A) : StronglySorted notAfter (sort lt l).
Proof.
  induction l as [|x r IH]; simpl.
  - constructor.
  - apply insert_sorted, IH.
Qed.

End SortFacts.
Arguments notAfter {A} lt a b.

(** *** The order of strings *)

Lemma ltb_lt (s t : string) :
  String.ltb s t = true <-> String_as_OT.lt s t.
Proof.
  unfold String.ltb. rewrite <- String_as_OT.cmp_lt.
  unfold String_as_OT.cmp.
  destruct (String.compare s t); split; congruence.
Qed.

Lemma ltb_asym (s t : string) :
  String.ltb s t = true -> String.ltb t s = false.
Proof.
  unfold String.ltb. rewrite (String.compare_antisym s t).
  destruct (String.compare t s); simpl; congruence.
Qed.

(** [ltb t s = false] reads [s <= t]: [s] is below [t] or is [t]. *)
Lemma ltb_false (s t : string) :
  String.ltb t s = false <-> String_as_OT.lt s t \/ s = t.
Proof.
  unfold String.ltb.
  rewrite <- String_as_OT.cmp_lt. unfold String_as_OT.cmp.
  rewrite (String.compare_antisym t s).
  destruct (String.compare s t) eqn:E; simpl.
  - apply String.compare_eq_iff in E. split; auto.
  - split; auto.
  - split; [discriminate|].
    intros [H|H]; [discriminate|].
    subst t. pose proof (proj2 (String_as_OT.cmp_eq s s) eq_refl) as R.
    unfold String_as_OT.cmp in R. congruence.
Qed.

Lemma ltb_notAfter_trans (a b c : string) :
  notAfter String.ltb a b -> notAfter String.ltb b c ->
  notAfter String.ltb a c.
Proof.
  unfold notAfter. rewrite !ltb_false.
  intros [H1|H1] [H2|H2]; subst; auto.
  left. eapply String_as_OT.lt_trans; eassumption.
Qed.

Lemma sortStrings_perm (l : list string) : Permutation (sortStrings l) l.
Proof. apply sort_perm. Qed.

(** A sorted list of strings without duplicates is strictly ascending. *)
Lemma sortStrings_strict (l : list string) :
  NoDup l ->
  StronglySorted (fun s t => String.ltb s t = true) (sortStrings l).
Proof.
  intros Hnd.
  assert (Hs : StronglySorted (notAfter String.ltb) (sortStrings l))
    by (apply sort_sorted; [apply ltb_asym | apply ltb_notAfter_trans]).
  assert (Hn : NoDup (sortStrings l))
    by (apply (Permutation_NoDup (Permutation_sym (sortStrings_perm l)) Hnd)).
  induction Hs as [|x r Hr IH Hx].
  - constructor.
  - inversion Hn as [|? ? Hnotin Hn']; subst.
    constructor; [apply IH, Hn'|].
    rewrite Forall_forall in *. intros y Hy.
    destruct (proj1 (ltb_false x y) (Hx y Hy)) as [H|H].
    + apply ltb_lt, H.
    + subst y. contradiction.
Qed.

(** *** Keeping first occurrences *)

Lemma indexOf_first (pre r : list string) (x : string) :
  ~ In x pre -> indexOf (pre ++ x :: r) x = Some (List.length pre).
Proof.
  induction pre as [|y pre IH]; simpl; intros Hn.
  - rewrite String.eqb_refl. reflexivity.
  - destruct (String.eqb_spec y x) as [->|_].
    + exfalso. apply Hn. left. reflexivity.
    + rewrite IH; [reflexivity|]. intros H. apply Hn. right. exact H.
Qed.

Lemma indexOf_earlier (pre l : list string) (x : string) :
  In x pre ->
  exists i, indexOf (pre ++ l) x = Some i /\ i < List.length pre.
Proof.
  induction pre as [|y pre IH]; simpl; intros Hin; [contradiction|].
  destruct (String.eqb_spec y x) as [->|Hne].
  - exists 0. split; [reflexivity|lia].
  - destruct Hin as [->|Hin]; [congruence|].
    destruct (IH Hin) as (i & Hi & Hlt).
    exists (S i). rewrite Hi. split; [reflexivity|lia].
Qed.

Lemma firstOccurrence_here (pre r : list string) (x : string) :
  Polygon.firstOccurrence x (List.length pre) (pre ++ x :: r) = true <->
  ~ In x pre.
Proof.
  unfold Polygon.firstOccurrence. split.
  - intros H Hin.
    destruct (indexOf_earlier pre (x :: r) x Hin) as (i & Hi & Hlt).
    rewrite Hi in H. apply Nat.eqb_eq in H. lia.
  - intros Hn. rewrite indexOf_first by exact Hn. apply Nat.eqb_refl.
Qed.

Lemma keepFirst_from (pre suf : list string) :
  let kept :=
    filteri_from (fun x i => Polygon.firstOccurrence x i (pre ++ suf))
                 (List.length pre) suf in
  (forall x, In x kept <-> In x suf /\ ~ In x pre) /\ NoDup kept.
Proof.
  revert pre. induction suf as [|y r IH]; intros pre; simpl.
  - split; [|constructor]. intros x. tauto.
  - specialize (IH (pre ++ [y])).
    rewrite <- app_assoc, length_app in IH. simpl in IH.
    rewrite Nat.add_1_r in IH. destruct IH as (IHin & IHnd).
    destruct (Polygon.firstOccurrence y (List.length pre) (pre ++ y :: r))
      eqn:E.
    + apply firstOccurrence_here in E. split.
      * intros x. simpl. rewrite IHin, in_app_iff. simpl.
        destruct (string_dec y x) as [->|Hne]; tauto.
      * constructor; [|exact IHnd].
        rewrite IHin, in_app_iff. simpl. tauto.
    + assert (Hin : In y pre).
      { destruct (in_dec string_dec y pre) as [H|H]; [exact H|].
        apply (firstOccurrence_here pre r y) in H. congruence. }
      split; [|exact IHnd].
      intros x. rewrite IHin, in_app_iff. simpl.
      destruct (string_dec y x) as [->|Hne]; tauto.
Qed.

Lemma keepFirst (l : list string) :
  (forall x, In x (filteri Polygon.firstOccurrence l) <-> In x l) /\
  NoDup (filteri Polygon.firstOccurrence l).
Proof.
  destruct (keepFirst_from [] l) as (Hin & Hnd). simpl in *.
  split; [|exact Hnd].
  intros x. unfold filteri. rewrite Hin. tauto.
Qed.

(** *** Substrings *)

Lemma prefix_spec (t s : string) :
  String.prefix t s = true <-> exists post, s = (t ++ post)%string.
Proof.
  revert s. induction t as [|a t IH]; intros s; simpl.
  - split; [intros _; exists s; reflexivity|].
    intros _. destruct s; reflexivity.
  - destruct s as [|b s]; simpl.
    + split; [discriminate|]. intros (post & H). discriminate.
    + destruct (ascii_dec a b) as [->|Hne].
      * rewrite IH. split; intros (post & H); exists post.
        -- rewrite H. reflexivity.
        -- congruence.
      * split; [discriminate|]. intros (post & H). congruence.
Qed.

(** [s.includes(t)] holds when [s] is [t] between two strings. *)
Lemma includes_spec (s t : string) :
  includes s t = true <->
  exists pre post, s = (pre ++ t ++ post)%string.
Proof.
  induction s as [|a s IH].
  - change (includes "" t) with (String.prefix t "" || false)%bool.
    rewrite orb_false_r, prefix_spec. split.
    + intros (post & H). exists "", post. exact H.
    + intros (pre & post & H). destruct pre; [|discriminate].
      exists post. exact H.
  - change (includes (String a s) t)
      with (String.prefix t (String a s) || includes s t)%bool.
    rewrite orb_true_iff, prefix_spec, IH. split.
    + intros [(post & H)|(pre & post & H)].
      * exists "", post. exact H.
      * exists (String a pre), post. rewrite H. reflexivity.
    + intros (pre & post & H). destruct pre as [|b pre].
      * left. exists post. exact H.
      * right. exists pre, post. simpl in H. congruence.
Qed.

Lemma includes_empty (s : string) : includes s "" = true.
Proof. apply includes_spec. exists "", s. reflexivity. Qed.

(** *** Numbers *)

Lemma negative_lt (x y : Q) : negative (x - y)%Q = true <-> (x < y)%Q.
Proof.
  unfold negative. rewrite negb_true_iff.
  destruct (Qle_bool 0 (x - y)) eqn:E.
  - apply Qle_bool_iff in E. split; [discriminate|]. intros H. lra.
  - split; [intros _|reflexivity].
    destruct (Qlt_le_dec x y) as [H|H]; [exact H|].
    assert (E' : Qle_bool 0 (x - y) = true) by (apply Qle_bool_iff; lra).
    congruence.
Qed.

Lemma negative_ge (x y : Q) : negative (y - x)%Q = false <-> (x <= y)%Q.
Proof.
  split.
  - intros H. destruct (Qlt_le_dec y x) as [L|L]; [|exact L].
    apply negative_lt in L. congruence.
  - intros H. destruct (negative (y - x)) eqn:E; [|reflexivity].
    apply negative_lt in E. lra.
Qed.

End JsFacts.

(* ================================================================== *)
(** ** Properties of the market-data client *)

Module PolygonFacts.
Import Polygon.

(** *** Quotes *)

(** C7. [fetchStockPrice] issues one request, the previous-close
    aggregate of the symbol, whatever the answer. It throws what the
    request threw, and throws [No data available] when the answer has no
    result row. When there is a row, it returns a quote for the symbol
    whose current price is the close of the first row, whose previous
    close is its open, whose change is close minus open, and whose percent
    change is the change divided by the open, times 100. *)
Theorem fetchStockPrice_quote (w : World) (symbol : string) :
  requests (fetchStockPrice w symbol) = [GetPrev symbol] /\
  (forall e, prevClose w symbol = Throw e ->
     outcome (fetchStockPrice w symbol) = Throw e) /\
  (forall body, prevClose w symbol = Ok body ->
     results body = None \/ results body = Some [] ->
     outcome (fetchStockPrice w symbol) =
       Throw (JsError "No data available")) /\
  (forall body row rest, prevClose w symbol = Ok body ->
     results body = Some (row :: rest) ->
     exists quote,
       outcome (fetchStockPrice w symbol) = Ok quote /\
       ticker quote = symbol /\
       currentPrice quote = Payload.c row /\
       previousClose quote = Payload.o row /\
       change quote = (Payload.c row - Payload.o row)%Q /\
       (~ (Payload.o row == 0)%Q ->
        changePercent quote = (change quote / Payload.o row * 100)%Q)).
Proof.
  unfold fetchStockPrice, requests, outcome, tryCatch, bind, get, throw, ret.
  repeat split.
  - destruct (prevClose w symbol) as [body|e]; simpl.
    + destruct (results body) as [[|row rest]|]; simpl; reflexivity.
    + reflexivity.
  - intros e ->. reflexivity.
  - intros body -> [E|E]; rewrite E; reflexivity.
  - intros body row rest -> E. rewrite E. simpl.
    eexists. split; [reflexivity|]. simpl. repeat split; reflexivity.
Qed.

(** A quote of 100 at the open and 110 at the close is up 10, that is 10
    percent. *)
Lemma fetchStockPrice_quote_witness :
  exists quote,
    outcome (fetchStockPrice Sample.market "AAPL") = Ok quote /\
    (change quote == 10)%Q /\ (changePercent quote == 10)%Q.
Proof.
  destruct (fetchStockPrice_quote Sample.market "AAPL")
    as (_ & _ & _ & H).
  destruct (H {| results := Some [Sample.bar 100 110] |}
              (Sample.bar 100 110) [] eq_refl eq_refl)
    as (quote & Hq & _ & _ & _ & Hc & Hp).
  exists quote. split; [exact Hq|]. split.
  - rewrite Hc. reflexivity.
  - rewrite Hp, Hc; [reflexivity|]. simpl. discriminate.
Defined.

(** *** Market status *)

(** C5, as the code has it. [fetchMarketStatus] always returns a status
    and never throws. When the request fails it returns the synthesized
    status, with the current time as server time: the market as a whole,
    the exchanges [nasdaq], [nyse] and [otc] and the currency market [fx]
    are reported closed, and the currency market [crypto] is reported
    open. *)
Theorem fetchMarketStatus_degrades (w : World) :
  (exists status, outcome (fetchMarketStatus w) = Ok status) /\
  (forall e, marketStatus w = Throw e ->
     outcome (fetchMarketStatus w) = Ok (closedStatus w) /\
     reported (closedStatus w) =
       [ ("market", "closed"); ("nasdaq", "closed"); ("nyse", "closed");
         ("otc", "closed"); ("fx", "closed"); ("crypto", "open") ] /\
     Status.serverTime (closedStatus w) = now w).
Proof.
  unfold fetchMarketStatus, outcome, tryCatch, bind, get, ret.
  split.
  - destruct (marketStatus w) as [status|e]; simpl; eexists; reflexivity.
  - intros e ->. simpl. repeat split.
Qed.

Lemma fetchMarketStatus_degrades_witness :
  outcome (fetchMarketStatus Sample.offline) =
    Ok (closedStatus Sample.offline) /\
  Status.market (closedStatus Sample.offline) = "closed".
Proof.
  destruct (fetchMarketStatus_degrades Sample.offline) as (_ & H).
  destruct (H _ eq_refl) as (H1 & H2 & _).
  split; [exact H1|].
  exact (f_equal (fun l => snd (hd ("", "") l)) H2).
Defined.

(** The status returned when the provider cannot be reached is not all
    closed: it reports the crypto market open. *)
Lemma fetchMarketStatus_reports_crypto_open :
  exists status,
    outcome (fetchMarketStatus Sample.offline) = Ok status /\
    In ("crypto", "open") (reported status) /\
    allClosed status = false.
Proof.
  exists (closedStatus Sample.offline).
  split; [reflexivity|]. split; [|reflexivity].
  simpl. auto 10.
Qed.

(** *** Best-effort operations *)

(** A handler that returns a default absorbs every failure. *)
Lemma tryCatch_default_total {A} (m : M A) (d : A) :
  exists a, outcome (tryCatch m (fun _ => ret d)) = Ok a.
Proof.
  destruct m as [sent [a|e]]; simpl; eexists; reflexivity.
Qed.

(** C8. [searchStocks] and [fetchHistoricalPrices] never throw. When the
    request fails each returns the empty sequence, which is also what it
    returns when the provider answers without results or with none: the
    outcome of a failed request and that of an answer without data are
    the same value. *)
Theorem best_effort_empty_on_failure (w : World) :
  (forall query,
     (exists found, outcome (searchStocks w query) = Ok found) /\
     (forall e, tickers w query = Throw e ->
        outcome (searchStocks w query) = Ok []) /\
     (forall body, tickers w query = Ok body ->
        results body = None \/ results body = Some [] ->
        outcome (searchStocks w query) = Ok [])) /\
  (forall symbol timespan from to limit,
     (exists bars,
        outcome (fetchHistoricalPrices w symbol timespan from to limit)
        = Ok bars) /\
     (forall e, aggregates w symbol timespan from to limit = Throw e ->
        outcome (fetchHistoricalPrices w symbol timespan from to limit)
        = Ok []) /\
     (forall body, aggregates w symbol timespan from to limit = Ok body ->
        results body = None \/ results body = Some [] ->
        outcome (fetchHistoricalPrices w symbol timespan from to limit)
        = Ok [])).
Proof.
  split.
  - intros query. split; [apply tryCatch_default_total|].
    unfold searchStocks, get, bind. split.
    + intros e ->. reflexivity.
    + intros body -> [E|E]; rewrite E; reflexivity.
  - intros symbol timespan from to limit.
    split; [apply tryCatch_default_total|].
    unfold fetchHistoricalPrices, get, bind. split.
    + intros e ->. reflexivity.
    + intros body -> [E|E]; rewrite E; reflexivity.
Qed.

(** A provider that cannot be reached and one that answers without
    results are told apart by neither operation. *)
Lemma best_effort_empty_on_failure_witness :
  outcome (searchStocks Sample.offline "AAPL") = Ok [] /\
  outcome (searchStocks Sample.silent "AAPL") = Ok [] /\
  outcome (fetchHistoricalPrices Sample.offline "AAPL" day
             "2024-01-01" "2024-03-01" 365) = Ok [] /\
  outcome (fetchHistoricalPrices Sample.silent "AAPL" day
             "2024-01-01" "2024-03-01" 365) = Ok [].
Proof.
  destruct (best_effort_empty_on_failure Sample.offline) as (S1 & H1).
  destruct (best_effort_empty_on_failure Sample.silent) as (S2 & H2).
  destruct (S1 "AAPL") as (_ & F1 & _).
  destruct (S2 "AAPL") as (_ & _ & N1).
  destruct (H1 "AAPL" day "2024-01-01" "2024-03-01" 365%Q) as (_ & F2 & _).
  destruct (H2 "AAPL" day "2024-01-01" "2024-03-01" 365%Q) as (_ & _ & N2).
  exact (conj (F1 _ eq_refl)
           (conj (N1 _ eq_refl (or_introl eq_refl))
              (conj (F2 _ eq_refl)
                 (N2 _ eq_refl (or_introl eq_refl))))).
Defined.

(** *** Outcomes of composed computations *)

Lemma outcome_bind {A B} (m : M A) (f : A -> M B) :
  outcome (bind m f) =
    match outcome m with
    | Ok a => outcome (f a)
    | Throw e => Throw e
    end.
Proof.
  destruct m as [sent [a|e]]; simpl; [|reflexivity].
  destruct (f a). reflexivity.
Qed.

(** [catch (error) { throw error }] leaves the outcome as it is. *)
Lemma outcome_rethrow {A} (m : M A) :
  outcome (tryCatch m (fun error => throw error)) = outcome m.
Proof. destruct m as [sent [a|e]]; reflexivity. Qed.

Lemma outcome_get {A} (req : Request) (answer : Result A) :
  outcome (get req answer) = answer.
Proof. reflexivity. Qed.

Lemma mapM_total {A B} (f : A -> M B) (l : list A) :
  (forall x, exists y, outcome (f x) = Ok y) ->
  exists ys,
    outcome (mapM f l) = Ok ys /\
    Forall2 (fun x y => outcome (f x) = Ok y) l ys.
Proof.
  intros Hf. induction l as [|x r (ys & Hys & Hall)]; simpl.
  - exists []. split; [reflexivity|constructor].
  - destruct (Hf x) as (y & Hy).
    exists (y :: ys). split.
    + rewrite outcome_bind, Hy, outcome_bind, Hys. reflexivity.
    + constructor; assumption.
Qed.

(** [Promise.all] over branches that do not throw is fulfilled with their
    values, in the order of the array. *)
Lemma promiseAll_total {A B} (f : A -> M B) (l : list A) :
  (forall x, exists y, outcome (f x) = Ok y) ->
  exists ys,
    outcome (promiseAll f l) = Ok ys /\
    Forall2 (fun x y => outcome (f x) = Ok y) l ys.
Proof.
  intros Hf. unfold promiseAll, outcome. simpl.
  assert (H : firstRejection (map f l) = None /\
              Forall2 (fun x y => snd (f x) = Ok y) l (fulfilled (map f l))).
  { induction l as [|x r (Hnone & Hall)]; simpl.
    - split; [reflexivity|constructor].
    - destruct (Hf x) as (y & Hy). unfold outcome in Hy.
      destruct (f x) as [sent res] eqn:E. simpl in Hy. subst res.
      split; [exact Hnone|]. constructor; [rewrite E; reflexivity|exact Hall]. }
  destruct H as (Hnone & Hall). rewrite Hnone.
  exists (fulfilled (map f l)). split; [reflexivity|exact Hall].
Qed.

Lemma Forall2_nth_error {A B} {R : A -> B -> Prop} {l : list A}
    {l' : list B} :
  Forall2 R l l' ->
  forall i x, nth_error l i = Some x ->
  exists y, nth_error l' i = Some y /\ R x y.
Proof.
  induction 1 as [|a b r r' Hab _ IH]; intros i x Hi.
  - destruct i; discriminate.
  - destruct i as [|i]; simpl in *.
    + injection Hi as <-. exists b. split; [reflexivity|exact Hab].
    + apply IH, Hi.
Qed.

(** *** Expiration dates *)

Definition ascending (dates : list string) : Prop :=
  StronglySorted (fun s t => String.ltb s t = true) dates.

(** C3. [fetchOptionsExpirations] throws what its request threw, returns
    the empty sequence when the answer has no results or none, and
    otherwise returns the expiration dates of the rows, each once, in
    strictly ascending order of strings, whatever the order of the rows
    and however often a date occurs among them. *)
Theorem fetchOptionsExpirations_ascending (w : World) (underlying : string) :
  (forall e, contracts w underlying None = Throw e ->
     outcome (fetchOptionsExpirations w underlying) = Throw e) /\
  (forall body, contracts w underlying None = Ok body ->
     results body = None \/ results body = Some [] ->
     outcome (fetchOptionsExpirations w underlying) = Ok []) /\
  (forall body rows, contracts w underlying None = Ok body ->
     results body = Some rows ->
     exists dates,
       outcome (fetchOptionsExpirations w underlying) = Ok dates /\
       ascending dates /\
       NoDup dates /\
       (forall d,
          In d dates <-> In d (map Payload.expiration_date rows))).
Proof.
  unfold fetchOptionsExpirations.
  rewrite outcome_rethrow, outcome_bind, outcome_get.
  split; [|split].
  - intros e ->. reflexivity.
  - intros body -> [E|E]; rewrite E; reflexivity.
  - intros body rows -> E. rewrite E.
    destruct rows as [|row rest].
    + exists []. simpl. repeat split; try constructor; tauto.
    + set (raw := map Payload.expiration_date (row :: rest)).
      destruct (JsFacts.keepFirst raw) as (Hin & Hnd).
      eexists. split; [reflexivity|]. split; [|split].
      * apply JsFacts.sortStrings_strict, Hnd.
      * apply (Permutation_NoDup
                 (Permutation_sym (JsFacts.sortStrings_perm _)) Hnd).
      * intros d. rewrite <- Hin. split; apply Permutation_in.
        -- apply JsFacts.sortStrings_perm.
        -- apply Permutation_sym, JsFacts.sortStrings_perm.
Qed.

(** Three rows out of order, one date twice. *)
Lemma fetchOptionsExpirations_ascending_witness :
  exists dates,
    outcome (fetchOptionsExpirations Sample.market "AAPL") = Ok dates /\
    ascending dates /\ NoDup dates /\
    (In "2024-03-15" dates /\ In "2024-06-21" dates).
Proof.
  destruct (fetchOptionsExpirations_ascending Sample.market "AAPL")
    as (_ & _ & H).
  destruct (H {| results := Some Sample.listing |} Sample.listing
              eq_refl eq_refl) as (dates & Hd & Hs & Hn & Hin).
  exists dates. split; [exact Hd|]. split; [exact Hs|]. split; [exact Hn|].
  split; apply Hin; simpl; auto.
Defined.

(** *** Option contracts *)

(** The expiration date [fetchOptionsData] asks the contracts of: the one
    it is given (when this is not the empty string), or else the first of
    the dates [fetchOptionsExpirations] returns. *)
Definition resolvesTo (w : World) (underlying : string)
    (expirationDate : option string) (expDate : string) : Prop :=
  Js.truthyStr expirationDate = Some expDate \/
  (Js.truthyStr expirationDate = None /\
   exists later,
     outcome (fetchOptionsExpirations w underlying) = Ok (expDate :: later)).

(** One of the two enrichment requests of a contract fails. *)
Definition enrichmentFails (w : World) (optionSymbol : string) : Prop :=
  (exists e, lastTrade w optionSymbol = Throw e) \/
  (exists e, snapshot w optionSymbol = Throw e).

Definition zeroGreeks : OptionGreeks :=
  {| delta := 0; gamma := 0; theta := 0; vega := 0; rho := Some 0%Q |}.

Lemma orNum_idem (x : option Q) :
  Js.orNum (Some (Js.orNum x 0)) 0 = Js.orNum x 0.
Proof.
  destruct x as [q|]; simpl; [|reflexivity].
  destruct (Js.truthy q) eqn:E; simpl; [rewrite E|]; reflexivity.
Qed.

(** [fetchOptionDetails] never throws: a failed request gives the
    defaults. *)
Lemma fetchOptionDetails_total (w : World) (optionSymbol : string) :
  exists details, outcome (fetchOptionDetails w optionSymbol) = Ok details.
Proof. apply tryCatch_default_total. Qed.

Lemma fetchOptionDetails_failed (w : World) (optionSymbol : string) :
  enrichmentFails w optionSymbol ->
  outcome (fetchOptionDetails w optionSymbol) = Ok defaultDetails.
Proof.
  unfold fetchOptionDetails, get, bind.
  intros [(e & E)|(e & E)]; rewrite E.
  - reflexivity.
  - destruct (lastTrade w optionSymbol); reflexivity.
Qed.

Lemma outcome_resolved (w : World) (underlying : string)
    (expirationDate : option string) (expDate : string)
    (rest : string -> M (list OptionData)) :
  resolvesTo w underlying expirationDate expDate ->
  outcome
    (tryCatch
       (expDate <-
          match Js.truthyStr expirationDate with
          | None =>
              expirations <- fetchOptionsExpirations w underlying ;;
              match expirations with
              | first :: _ => ret first
              | [] => throw (JsError "No expiration dates available")
              end
          | Some given => ret given
          end ;;
        rest expDate)
       (fun error => throw error))
  = outcome (rest expDate).
Proof.
  intros [E|(E & later & H)]; rewrite outcome_rethrow, outcome_bind, E.
  - reflexivity.
  - rewrite outcome_bind, H. reflexivity.
Qed.

(** C1. When the contract listing of the resolved expiration date is
    answered with rows, [fetchOptionsData] returns, and returns one
    contract per row, in the order of the rows. The contract of a row
    whose enrichment fails has price, bid, ask, open interest, volume and
    implied volatility 0 and all five Greeks 0; the contract of a row whose
    two enrichment requests are answered has the values of these answers,
    0 standing for a value that is absent. In both cases the contract
    carries the symbol, underlying, expiration date, strike and type of
    its row. *)
Theorem fetchOptionsData_enrichment_degrades (w : World)
    (underlying : string) (expirationDate : option string)
    (expDate : string) (body : Body (list Payload.Contract))
    (rows : list Payload.Contract) :
  resolvesTo w underlying expirationDate expDate ->
  contracts w underlying (Some expDate) = Ok body ->
  results body = Some rows ->
  exists out,
    outcome (fetchOptionsData w underlying expirationDate) = Ok out /\
    List.length out = List.length rows /\
    forall i row, nth_error rows i = Some row ->
      exists opt,
        nth_error out i = Some opt /\
        (symbol opt = Payload.ticker row /\
         underlyingSymbol opt = Payload.underlying_ticker row /\
         Polygon.expirationDate opt = Payload.expiration_date row /\
         strikePrice opt = Payload.strike_price row /\
         optionType opt = Js.toLowerCase (Payload.contract_type row)) /\
        (enrichmentFails w (Payload.ticker row) ->
         lastPrice opt = 0%Q /\ bidPrice opt = 0%Q /\ askPrice opt = 0%Q /\
         openInterest opt = 0%Q /\ volume opt = 0%Q /\
         impliedVolatility opt = 0%Q /\ greeks opt = zeroGreeks) /\
        (forall trade snap,
           lastTrade w (Payload.ticker row) = Ok trade ->
           snapshot w (Payload.ticker row) = Ok snap ->
           let quote := results snap in
           let sens := Js.chain quote Payload.Snapshot.greeks in
           lastPrice opt =
             Js.orNum (Js.chain (results trade) Payload.Trade.p) 0 /\
           bidPrice opt =
             Js.orNum (Js.chain (Js.chain quote Payload.Snapshot.bid)
                                Payload.Snapshot.p) 0 /\
           askPrice opt =
             Js.orNum (Js.chain (Js.chain quote Payload.Snapshot.ask)
                                Payload.Snapshot.p) 0 /\
           openInterest opt =
             Js.orNum (Js.chain quote Payload.Snapshot.open_interest) 0 /\
           volume opt =
             Js.orNum (Js.chain (Js.chain quote Payload.Snapshot.day)
                                Payload.Snapshot.v) 0 /\
           impliedVolatility opt =
             Js.orNum (Js.chain quote Payload.Snapshot.implied_volatility)
                      0 /\
           delta (greeks opt) =
             Js.orNum (Js.chain sens Payload.Snapshot.delta) 0 /\
           gamma (greeks opt) =
             Js.orNum (Js.chain sens Payload.Snapshot.gamma) 0 /\
           theta (greeks opt) =
             Js.orNum (Js.chain sens Payload.Snapshot.theta) 0 /\
           vega (greeks opt) =
             Js.orNum (Js.chain sens Payload.Snapshot.vega) 0 /\
           rho (greeks opt) =
             Some (Js.orNum (Js.chain sens Payload.Snapshot.rho) 0)).
Proof.
  intros Hres Hbody Hrows.
  unfold fetchOptionsData.
  rewrite (outcome_resolved w underlying expirationDate expDate
             (fun expDate =>
                response <- get (GetContracts underlying (Some expDate))
                                (contracts w underlying (Some expDate)) ;;
                match results response with
                | Some ((_ :: _) as rows) =>
                    promiseAll
                      (fun option =>
                         details <-
                           fetchOptionDetails w (Payload.ticker option) ;;
                         ret (toOptionData option details))
                      rows
                | _ => ret []
                end) Hres).
  rewrite outcome_bind, outcome_get, Hbody, Hrows.
  set (enrich := fun option : Payload.Contract =>
         details <- fetchOptionDetails w (Payload.ticker option) ;;
         ret (toOptionData option details)).
  assert (Hall : exists out,
             outcome (promiseAll enrich rows) = Ok out /\
             Forall2 (fun x y => outcome (enrich x) = Ok y) rows out).
  { apply promiseAll_total. intros x. unfold enrich.
    destruct (fetchOptionDetails_total w (Payload.ticker x)) as (d & Hd).
    exists (toOptionData x d). rewrite outcome_bind, Hd. reflexivity. }
  destruct Hall as (out & Hout & Hall).
  exists out. split; [|split].
  - destruct rows as [|row rest]; [|exact Hout].
    inversion Hall. reflexivity.
  - symmetry. apply (Forall2_length Hall).
  - intros i row Hi.
    destruct (Forall2_nth_error Hall i row Hi) as (opt & Hopt & Henrich).
    exists opt. split; [exact Hopt|].
    unfold enrich in Henrich. rewrite outcome_bind in Henrich.
    split; [|split].
    + destruct (fetchOptionDetails_total w (Payload.ticker row))
        as (d & Hd).
      rewrite Hd in Henrich. injection Henrich as <-.
      repeat split.
    + intros Hfail.
      rewrite (fetchOptionDetails_failed w _ Hfail) in Henrich.
      injection Henrich as <-. repeat split.
    + intros trade snap Htrade Hsnap.
      unfold fetchOptionDetails, get, bind in Henrich.
      rewrite Htrade, Hsnap in Henrich. simpl in Henrich.
      injection Henrich as <-.
      unfold toOptionData; cbn [lastPrice bidPrice askPrice openInterest
        volume impliedVolatility greeks delta gamma theta vega rho
        Details.lastPrice Details.bidPrice Details.askPrice
        Details.openInterest Details.volume Details.impliedVolatility
        Details.greeks].
      rewrite !orNum_idem. repeat split.
Qed.

(** Three contracts listed, the enrichment of the second fails: three
    contracts returned, the second priced 0. *)
Lemma fetchOptionsData_enrichment_degrades_witness :
  exists out,
    outcome (fetchOptionsData Sample.market "AAPL" (Some "2024-06-21"))
    = Ok out /\
    List.length out = 3 /\
    exists opt,
      nth_error out 1 = Some opt /\
      symbol opt = "O:AAPL240621P00150000" /\
      lastPrice opt = 0%Q /\ openInterest opt = 0%Q /\
      greeks opt = zeroGreeks.
Proof.
  destruct (@fetchOptionsData_enrichment_degrades Sample.market "AAPL"
              (Some "2024-06-21") "2024-06-21"
              {| results := Some (Sample.expiring (Some "2024-06-21")) |}
              (Sample.expiring (Some "2024-06-21"))
              (or_introl eq_refl) eq_refl eq_refl)
    as (out & Hout & Hlen & Hrows).
  exists out. split; [exact Hout|]. split; [exact Hlen|].
  destruct (Hrows 1 _ eq_refl) as (opt & Hopt & (Hsym & _) & Hzero & _).
  exists opt. split; [exact Hopt|]. split; [exact Hsym|].
  destruct (Hzero (or_introl (ex_intro _ _ eq_refl)))
    as (H1 & _ & _ & H4 & _ & _ & H7).
  split; [exact H1|]. split; [exact H4|exact H7].
Defined.

(** C10. With no expiration date given (or the empty string) and an empty
    list of expiration dates, [fetchOptionsData] throws
    [No expiration dates available]. With an expiration date given or
    resolved and a contract listing answered without rows, it returns the
    empty sequence. *)
Theorem fetchOptionsData_empty_cases (w : World) (underlying : string)
    (expirationDate : option string) :
  (Js.truthyStr expirationDate = None ->
   outcome (fetchOptionsExpirations w underlying) = Ok [] ->
   outcome (fetchOptionsData w underlying expirationDate) =
     Throw (JsError "No expiration dates available")) /\
  (forall expDate body,
     resolvesTo w underlying expirationDate expDate ->
     contracts w underlying (Some expDate) = Ok body ->
     results body = None \/ results body = Some [] ->
     outcome (fetchOptionsData w underlying expirationDate) = Ok []).
Proof.
  split.
  - intros E H. unfold fetchOptionsData.
    rewrite outcome_rethrow, outcome_bind, E, outcome_bind, H.
    reflexivity.
  - intros expDate body Hres Hbody Hnone. unfold fetchOptionsData.
    rewrite (outcome_resolved w underlying expirationDate expDate
               (fun expDate =>
                  response <- get (GetContracts underlying (Some expDate))
                                  (contracts w underlying (Some expDate)) ;;
                  match results response with
                  | Some ((_ :: _) as rows) =>
                      promiseAll
                        (fun option =>
                           details <-
                             fetchOptionDetails w (Payload.ticker option) ;;
                           ret (toOptionData option details))
                        rows
                  | _ => ret []
                  end) Hres).
    rewrite outcome_bind, outcome_get, Hbody.
    destruct Hnone as [E|E]; rewrite E; reflexivity.
Qed.

(** No date given and no contract of the underlying: an error. A date
    given and no contract for it: the empty sequence. *)
Lemma fetchOptionsData_empty_cases_witness :
  outcome (fetchOptionsData Sample.silent "AAPL" None) =
    Throw (JsError "No expiration dates available") /\
  outcome (fetchOptionsData Sample.silent "AAPL" (Some "2024-06-21")) =
    Ok [].
Proof.
  split.
  - exact (proj1 (fetchOptionsData_empty_cases Sample.silent "AAPL" None)
             eq_refl eq_refl).
  - exact (proj2 (fetchOptionsData_empty_cases Sample.silent "AAPL"
                    (Some "2024-06-21"))
             "2024-06-21" {| results := None |}
             (or_introl eq_refl) eq_refl (or_introl eq_refl)).
Defined.

End PolygonFacts.

(* ================================================================== *)
(** ** Properties of the store *)

Module StoreFacts.
Import Store.

Section Arrays.
Context {A : Type}.

Lemma read_alloc_old (s : t A) (a : list A) (r : ref) :
  r < List.length s -> read (fst (alloc s a)) r = read s r.
Proof. intros H. unfold alloc, read. simpl. apply app_nth1, H. Qed.

Lemma read_alloc_new (s : t A) (a : list A) :
  read (fst (alloc s a)) (snd (alloc s a)) = a.
Proof.
  unfold alloc, read. simpl.
  rewrite app_nth2 by lia. rewrite Nat.sub_diag. reflexivity.
Qed.

Lemma length_write (s : t A) (r : ref) (a : list A) :
  List.length (write s r a) = List.length s.
Proof.
  revert r. induction s as [|x s IH]; intros [|r]; simpl; auto.
Qed.

Lemma read_write_same (s : t A) (r : ref) (a : list A) :
  r < List.length s -> read (write s r a) r = a.
Proof.
  unfold read. revert r. induction s as [|x s IH]; intros [|r]; simpl;
    intros H; try lia; auto.
  apply IH. lia.
Qed.

Lemma read_write_other (s : t A) (r r' : ref) (a : list A) :
  r <> r' -> read (write s r a) r' = read s r'.
Proof.
  unfold read. revert r r'.
  induction s as [|x s IH]; intros [|r] [|r']; simpl; intros H;
    try congruence; auto.
Qed.

End Arrays.
End StoreFacts.

(* ================================================================== *)
(** ** Properties of the options-chain screen *)

Module OptionsChainFacts.
Import OptionsChain.

(** *** Merging a push *)

(** A list without a record of the subscribed symbol is left as it is. *)
Lemma mergeUpdate_absent (subscribed : string) (update : Update.t)
    (prevOptions : list P.OptionData) :
  (forall opt, In opt prevOptions -> P.symbol opt <> subscribed) ->
  mergeUpdate subscribed update prevOptions = prevOptions.
Proof.
  unfold mergeUpdate. intros Hnone.
  induction prevOptions as [|opt rest IH]; simpl.
  - reflexivity.
  - destruct (String.eqb_spec (P.symbol opt) subscribed) as [E|_].
    + exfalso. apply (Hnone opt); [left; reflexivity|exact E].
    + f_equal. apply IH. intros o Ho. apply Hnone. right. exact Ho.
Qed.

(** C4. The update of a push merged into a list, for the contract the
    push was subscribed for: the list keeps its length and its order; a
    record with that symbol becomes a record each of whose fields is the
    field of the update, when the update carries it, and the field of the
    record as it was, when the update does not; every other record stays
    as it is; and a list without a record of that symbol stays the same
    list. *)
Theorem mergeUpdate_frame (subscribed : string) (update : Update.t)
    (prevOptions : list P.OptionData) :
  List.length (mergeUpdate subscribed update prevOptions) =
    List.length prevOptions /\
  (forall i opt, nth_error prevOptions i = Some opt ->
     (P.symbol opt = subscribed ->
      exists merged,
        nth_error (mergeUpdate subscribed update prevOptions) i =
          Some merged /\
        P.symbol merged =
          match Update.symbol update with
          | Some x => x
          | None => P.symbol opt
          end /\
        P.underlyingSymbol merged =
          match Update.underlyingSymbol update with
          | Some x => x
          | None => P.underlyingSymbol opt
          end /\
        P.expirationDate merged =
          match Update.expirationDate update with
          | Some x => x
          | None => P.expirationDate opt
          end /\
        P.strikePrice merged =
          match Update.strikePrice update with
          | Some x => x
          | None => P.strikePrice opt
          end /\
        P.optionType merged =
          match Update.optionType update with
          | Some x => x
          | None => P.optionType opt
          end /\
        P.lastPrice merged =
          match Update.lastPrice update with
          | Some x => x
          | None => P.lastPrice opt
          end /\
        P.bidPrice merged =
          match Update.bidPrice update with
          | Some x => x
          | None => P.bidPrice opt
          end /\
        P.askPrice merged =
          match Update.askPrice update with
          | Some x => x
          | None => P.askPrice opt
          end /\
        P.openInterest merged =
          match Update.openInterest update with
          | Some x => x
          | None => P.openInterest opt
          end /\
        P.volume merged =
          match Update.volume update with
          | Some x => x
          | None => P.volume opt
          end /\
        P.impliedVolatility merged =
          match Update.impliedVolatility update with
          | Some x => x
          | None => P.impliedVolatility opt
          end /\
        P.greeks merged =
          match Update.greeks update with
          | Some x => x
          | None => P.greeks opt
          end) /\
     (P.symbol opt <> subscribed ->
      nth_error (mergeUpdate subscribed update prevOptions) i = Some opt)) /\
  ((forall opt, In opt prevOptions -> P.symbol opt <> subscribed) ->
   mergeUpdate subscribed update prevOptions = prevOptions).
Proof.
  split; [apply length_map|]. split.
  - intros i opt Hi. unfold mergeUpdate. rewrite nth_error_map, Hi. simpl.
    destruct (String.eqb_spec (P.symbol opt) subscribed) as [E|N]; split;
      intros H; try congruence.
    exists (spread opt update). split; [reflexivity|].
    unfold spread, over. simpl. repeat split.
  - apply mergeUpdate_absent.
Qed.

(** A last price pushed for contract A: A has it and keeps its bid, its
    strike and its symbol, B is as before. *)
Lemma mergeUpdate_frame_witness :
  (exists merged,
     nth_error
       (mergeUpdate "A" (Sample.lastPriceIs 9) [Sample.optA; Sample.optB]) 0
     = Some merged /\
     P.lastPrice merged = 9%Q /\
     P.bidPrice merged = 4%Q /\
     P.strikePrice merged = 155%Q /\
     P.symbol merged = "A") /\
  nth_error
    (mergeUpdate "A" (Sample.lastPriceIs 9) [Sample.optA; Sample.optB]) 1
  = Some Sample.optB /\
  mergeUpdate "A" (Sample.lastPriceIs 9) [Sample.optB; Sample.optC]
  = [Sample.optB; Sample.optC].
Proof.
  destruct (mergeUpdate_frame "A" (Sample.lastPriceIs 9)
              [Sample.optA; Sample.optB]) as (_ & H & _).
  destruct (mergeUpdate_frame "A" (Sample.lastPriceIs 9)
              [Sample.optB; Sample.optC]) as (_ & _ & N).
  split; [|split].
  - destruct (proj1 (H 0 Sample.optA eq_refl) eq_refl)
      as (merged & Hm & Hsym & _ & _ & Hstrike & _ & Hlast & Hbid & _).
    exists merged.
    exact (conj Hm (conj Hlast (conj Hbid (conj Hstrike Hsym)))).
  - apply (proj2 (H 1 Sample.optB eq_refl)). discriminate.
  - apply N. intros opt [<-|[<-|[]]]; discriminate.
Defined.

(** *** The display derivation *)

Section DisplayFacts.
Variable toString : Q -> string.

Definition strikeNotAbove (a b : P.OptionData) : Prop :=
  (P.strikePrice a <= P.strikePrice b)%Q.

Lemma byStrike_asym (a b : P.OptionData) :
  byStrike a b = true -> byStrike b a = false.
Proof.
  unfold byStrike. rewrite JsFacts.negative_lt, JsFacts.negative_ge.
  apply Qlt_le_weak.
Qed.

Lemma byStrike_trans (a b c : P.OptionData) :
  JsFacts.notAfter byStrike a b -> JsFacts.notAfter byStrike b c ->
  JsFacts.notAfter byStrike a c.
Proof.
  unfold JsFacts.notAfter, byStrike. rewrite !JsFacts.negative_ge.
  apply Qle_trans.
Qed.

Lemma sort_byStrike_sorted (l : list P.OptionData) :
  StronglySorted strikeNotAbove (Js.sort byStrike l).
Proof.
  assert (H : StronglySorted (JsFacts.notAfter byStrike)
                (Js.sort byStrike l))
    by (apply JsFacts.sort_sorted;
        [apply byStrike_asym | apply byStrike_trans]).
  induction H as [|x r Hr IH Hx]; constructor; [exact IH|].
  eapply Forall_impl; [|exact Hx].
  intros y Hy. unfold strikeNotAbove.
  apply JsFacts.negative_ge. exact Hy.
Qed.

(** What the filter keeps. *)
Lemma shown_spec (ty : OptionType) (text : string) (o : P.OptionData) :
  shown toString ty text o = true <->
  P.optionType o = typeName ty /\
  (text = "" \/
   (exists pre post,
      toString (P.strikePrice o) = (pre ++ text ++ post)%string) \/
   (exists pre post,
      toString (P.openInterest o) = (pre ++ text ++ post)%string)).
Proof.
  unfold shown.
  rewrite andb_true_iff, !orb_true_iff, String.eqb_eq, String.eqb_eq,
    !JsFacts.includes_spec.
  tauto.
Qed.

(** C6. The display derivation on the store: every array that existed
    before, the canonical contract list among them, is as it was; the
    result is a new array; it is the stable sort by strike of the filtered
    list, so a function of the list, the filter text and the option type
    alone; it holds the contracts of the list, each as often as in the
    list, that have the selected type and, unless the filter text is
    empty, whose strike or open interest as text contains the filter
    text; and it ascends by strike. *)
Theorem filteredOptions_pure (ty : OptionType) (text : string)
    (options : Store.ref) (s : Store.t P.OptionData) :
  options < List.length s ->
  let result := filteredOptions toString ty text options s in
  let out := Store.read (fst result) (snd result) in
  (forall r, r < List.length s ->
     Store.read (fst result) r = Store.read s r) /\
  snd result <> options /\
  out = Js.sort byStrike
          (filter (shown toString ty text) (Store.read s options)) /\
  (forall o, In o out <->
     In o (Store.read s options) /\
     P.optionType o = typeName ty /\
     (text = "" \/
      (exists pre post,
         toString (P.strikePrice o) = (pre ++ text ++ post)%string) \/
      (exists pre post,
         toString (P.openInterest o) = (pre ++ text ++ post)%string))) /\
  Permutation out (filter (shown toString ty text) (Store.read s options)) /\
  StronglySorted strikeNotAbove out.
Proof.
  intros Hvalid result out.
  set (kept := filter (shown toString ty text) (Store.read s options)).
  assert (Hnew : Store.read (s ++ [kept]) (List.length s) = kept)
    by (apply (StoreFacts.read_alloc_new s kept)).
  assert (Hout : out = Js.sort byStrike kept).
  { unfold out, result, filteredOptions, Store.arrayFilter, Store.alloc,
      Store.arraySort. simpl. fold kept.
    rewrite StoreFacts.read_write_same
      by (rewrite length_app; simpl; lia).
    rewrite Hnew. reflexivity. }
  split; [|split; [|split; [|split; [|split]]]].
  - intros r Hr.
    unfold result, filteredOptions, Store.arrayFilter, Store.alloc,
      Store.arraySort. simpl.
    rewrite StoreFacts.read_write_other by lia.
    apply (StoreFacts.read_alloc_old s _ r Hr).
  - unfold result, filteredOptions, Store.arrayFilter, Store.alloc,
      Store.arraySort. simpl. lia.
  - exact Hout.
  - intros o. rewrite Hout. unfold kept.
    rewrite <- shown_spec, <- filter_In.
    split; apply Permutation_in.
    + apply JsFacts.sort_perm.
    + apply Permutation_sym, JsFacts.sort_perm.
  - rewrite Hout. apply JsFacts.sort_perm.
  - rewrite Hout. apply sort_byStrike_sorted.
Qed.

End DisplayFacts.

(** With the calls filtered by [15]: the contract at 145 shown for its
    open interest 15, those at 150 and 155 for their strike, in this
    order, and the canonical list still in its place. *)
Lemma filteredOptions_pure_witness :
  let s := [[Sample.optA; Sample.optB; Sample.optC; Sample.optD]] in
  let result := filteredOptions Sample.decimal call "15" 0 s in
  Store.read (fst result) 0 = Store.read s 0 /\
  Store.read (fst result) (snd result) =
    [Sample.optD; Sample.optB; Sample.optA].
Proof.
  destruct (@filteredOptions_pure Sample.decimal call "15" 0
              [[Sample.optA; Sample.optB; Sample.optC; Sample.optD]]
              (Nat.lt_0_succ 0))
    as (Hframe & _ & Hout & _).
  split.
  - exact (Hframe 0 (Nat.lt_0_succ 0)).
  - rewrite Hout. reflexivity.
Defined.

(** *** The books of the subscriptions *)

(** What a state keeps about the channels: the two refs, the effects and
    the next fresh stop capability. The setters of the view leave these
    alone. *)
Definition Books : Type :=
  (option handle * Registry * list Effect * handle)%type.

Definition books (s : State) : Books :=
  (stockPriceUnsubscribeRef s, optionUnsubscribesRef s, effects s,
   nextHandle s).

Definition stockStop (stock : option handle) : list Effect :=
  match stock with
  | Some h => [Stopped h]
  | None => []
  end.

(** The ways a step changes the books. *)
Inductive BookStep : Books -> Books -> Prop :=
| BookSame b : BookStep b b
| BookStock stock reg es next :
    BookStep (stock, reg, es, next)
             (Some next, reg, es ++ [OpenedStock next], S next)
| BookOption contract stock reg es next :
    BookStep (stock, reg, es, next)
             (stock, mapSet contract next reg,
              es ++ [OpenedOption contract next], S next)
| BookDrain stock reg es next :
    BookStep (stock, reg, es, next) (stock, [], es ++ stopAll reg, next)
| BookCleanup stock reg es next :
    BookStep (stock, reg, es, next)
             (None, [], (es ++ stockStop stock) ++ stopAll reg, next).

Lemma books_setView (f : View -> View) (s : State) :
  books (setView f s) = books s.
Proof. unfold setView. destruct (unmounted s); reflexivity. Qed.

Lemma books_finishLoad (initial : bool) (s : State) :
  books (finishLoad initial s) = books s.
Proof.
  unfold finishLoad, setLoading, setLoadingOptions.
  destruct initial; rewrite ?books_setView; reflexivity.
Qed.

Lemma books_subscribeNext (initial : bool) (todo : list P.OptionData)
    (s : State) :
  books (subscribeNext initial todo s) = books s.
Proof.
  destruct todo; simpl; [apply books_finishLoad|reflexivity].
Qed.

Lemma books_loadOptionsData (initial : bool) (expDate : string) (s : State) :
  books (loadOptionsData initial expDate s) =
    (stockPriceUnsubscribeRef s, [],
     effects s ++ stopAll (optionUnsubscribesRef s), nextHandle s).
Proof.
  unfold loadOptionsData, setLoadingOptions, setView.
  destruct (unmounted s); reflexivity.
Qed.

Lemma books_cleanup (s : State) :
  books (cleanup s) =
    (None, [],
     (effects s ++ stockStop (stockPriceUnsubscribeRef s))
       ++ stopAll (optionUnsubscribesRef s),
     nextHandle s).
Proof.
  unfold cleanup, books.
  destruct (stockPriceUnsubscribeRef s) as [h|] eqn:E; simpl.
  - reflexivity.
  - rewrite E, app_nil_r. reflexivity.
Qed.

Lemma books_spawn (task : Task) (s : State) :
  books (spawn task s) = books s.
Proof. reflexivity. Qed.

Lemma loadOptionsData_drains (initial : bool) (expDate : string)
    (s : State) (b : Books) :
  books s = b -> BookStep b (books (loadOptionsData initial expDate s)).
Proof.
  intros <-. rewrite books_loadOptionsData. apply BookDrain.
Qed.

Lemma resume_books (task : Task) (v : Settled) (s s' : State) :
  resume task v s = Some s' -> BookStep (books s) (books s').
Proof.
  destruct task; destruct v as [|[stockData|e]|[dates|e]|[optionsData|e]];
    simpl; try discriminate; intros H.
  - injection H as <-. apply BookStock.
  - injection H as <-. rewrite books_spawn. unfold setStockPrice.
    rewrite books_setView. apply BookSame.
  - injection H as <-. unfold failInitial, setLoading.
    rewrite books_setView. apply BookSame.
  - destruct dates as [|first later]; injection H as <-.
    + unfold setLoading, setExpirationDates. rewrite !books_setView.
      apply BookSame.
    + apply loadOptionsData_drains.
      unfold setSelectedExpiration, setExpirationDates.
      rewrite !books_setView. reflexivity.
  - injection H as <-. unfold failInitial, setLoading.
    rewrite books_setView. apply BookSame.
  - injection H as <-. rewrite books_subscribeNext. unfold setOptions.
    rewrite books_setView. apply BookSame.
  - injection H as <-. rewrite books_finishLoad. apply BookSame.
  - injection H as <-. rewrite books_subscribeNext. apply BookOption.
Qed.

Lemma step_books (s s' : State) (e : Event) :
  step s e = Some s' -> BookStep (books s) (books s').
Proof.
  destruct e as [i v|expDate|ty|text|h stockData|h update|]; simpl.
  - destruct (nth_error (pending s) i) as [task|]; [|discriminate].
    intros H. apply resume_books in H. exact H.
  - destruct (interactive s); [|discriminate]. intros H. injection H as <-.
    apply loadOptionsData_drains. unfold setSelectedExpiration.
    apply books_setView.
  - destruct (interactive s); [|discriminate]. intros H. injection H as <-.
    unfold setOptionType. rewrite books_setView. apply BookSame.
  - destruct (interactive s); [|discriminate]. intros H. injection H as <-.
    unfold setFilterText. rewrite books_setView. apply BookSame.
  - destruct (isStockHandle h (effects s)); [|discriminate].
    intros H. injection H as <-.
    unfold setStockPrice. rewrite books_setView. apply BookSame.
  - destruct (contractOf h (effects s)); [|discriminate].
    intros H. injection H as <-.
    unfold setOptions. rewrite books_setView. apply BookSame.
  - destruct (unmounted s); [discriminate|]. intros H. injection H as <-.
    change (books (markUnmounted (cleanup s))) with (books (cleanup s)).
    rewrite books_cleanup. apply BookCleanup.
Qed.

(** *** Stop capabilities are invoked at most once *)

Lemma stopped_app (es es' : list Effect) :
  stopped (es ++ es') = stopped es ++ stopped es'.
Proof.
  induction es as [|[h|c h|h] es IH]; simpl; rewrite ?IH; reflexivity.
Qed.

Lemma opened_app (es es' : list Effect) :
  opened (es ++ es') = opened es ++ opened es'.
Proof.
  induction es as [|[h|c h|h] es IH]; simpl; rewrite ?IH; reflexivity.
Qed.

Lemma stopped_stopAll (reg : Registry) : stopped (stopAll reg) = map snd reg.
Proof. induction reg as [|[k h] reg IH]; simpl; rewrite ?IH; reflexivity. Qed.

Lemma opened_stopAll (reg : Registry) : opened (stopAll reg) = [].
Proof. induction reg as [|[k h] reg IH]; simpl; auto. Qed.

Lemma stopped_stockStop (stock : option handle) :
  stopped (stockStop stock) =
    match stock with Some h => [h] | None => [] end.
Proof. destruct stock; reflexivity. Qed.

Lemma opened_stockStop (stock : option handle) :
  opened (stockStop stock) = [].
Proof. destruct stock; reflexivity. Qed.

Lemma mapSet_handles (key : string) (h : handle) (reg : Registry)
    (h' : handle) :
  In h' (map snd (mapSet key h reg)) -> h' = h \/ In h' (map snd reg).
Proof.
  induction reg as [|[k v] reg IH]; simpl.
  - intros [<-|[]]. left. reflexivity.
  - destruct (k =? key)%string; simpl.
    + intros [<-|H]; auto.
    + intros [<-|H]; auto. destruct (IH H); auto.
Qed.

Lemma mapSet_NoDup (key : string) (h : handle) (reg : Registry) :
  NoDup (map snd reg) -> ~ In h (map snd reg) ->
  NoDup (map snd (mapSet key h reg)).
Proof.
  induction reg as [|[k v] reg IH]; simpl; intros Hnd Hnot.
  - constructor; [intros []|constructor].
  - inversion Hnd as [|? ? Hv Hrest]; subst.
    destruct (k =? key)%string; simpl.
    + constructor; [|exact Hrest]. intros H. apply Hnot. right. exact H.
    + constructor.
      * intros H. apply mapSet_handles in H. destruct H as [->|H].
        -- apply Hnot. left. reflexivity.
        -- contradiction.
      * apply IH; [exact Hrest|]. intros H. apply Hnot. right. exact H.
Qed.

Definition heldOf (stock : option handle) (reg : Registry) : list handle :=
  match stock with
  | Some h => [h]
  | None => []
  end ++ map snd reg.

(** The books are in order: the stop capabilities the screen holds are
    distinct, opened and not yet invoked; none was invoked twice; only
    opened ones were invoked; and the next one is fresh. *)
Definition Safe (b : Books) : Prop :=
  let '(stock, reg, es, next) := b in
  NoDup (heldOf stock reg) /\
  (forall h, In h (heldOf stock reg) ->
     In h (opened es) /\ ~ In h (stopped es)) /\
  NoDup (stopped es) /\
  (forall h, In h (stopped es) -> In h (opened es)) /\
  (forall h, In h (opened es) -> h < next).

Lemma Safe_step {b b' : Books} : BookStep b b' -> Safe b -> Safe b'.
Proof.
  intros Hstep.
  destruct Hstep as [b|stock reg es next|contract stock reg es next
                    |stock reg es next|stock reg es next];
    [tauto|..]; intros (Hnd & Hlive & Hstop & Hsub & Hlt).
  - (* the stock subscription resolves *)
    assert (Hfresh : ~ In next (opened es))
      by (intros H; apply Hlt in H; lia).
    unfold Safe, heldOf in *. rewrite opened_app, stopped_app. simpl.
    rewrite app_nil_r. repeat split.
    + constructor.
      * intros H. apply Hfresh.
        apply (Hlive next). apply in_or_app. right. exact H.
      * apply (NoDup_app_remove_l _ _ Hnd).
    + destruct H as [<-|H].
      * apply in_or_app. right. left. reflexivity.
      * apply in_or_app. left.
        apply (Hlive h). apply in_or_app. right. exact H.
    + destruct H as [<-|H].
      * intros H'. apply Hfresh, Hsub, H'.
      * apply (Hlive h). apply in_or_app. right. exact H.
    + exact Hstop.
    + intros h H. apply in_or_app. left. apply Hsub, H.
    + intros h H. apply in_app_or in H. destruct H as [H|[<-|[]]].
      * apply Hlt in H. lia.
      * lia.
  - (* an option subscription resolves *)
    assert (Hfresh : ~ In next (opened es))
      by (intros H; apply Hlt in H; lia).
    assert (Hold : forall h,
               In h (heldOf stock (mapSet contract next reg)) ->
               h = next \/ In h (heldOf stock reg)).
    { unfold heldOf. intros h H. apply in_app_or in H.
      destruct H as [H|H].
      - right. apply in_or_app. left. exact H.
      - apply mapSet_handles in H. destruct H as [H|H]; [left; exact H|].
        right. apply in_or_app. right. exact H. }
    unfold Safe. rewrite opened_app, stopped_app. simpl.
    rewrite app_nil_r. repeat split.
    + unfold heldOf in *. apply NoDup_app.
      * apply (NoDup_app_remove_r _ _ Hnd).
      * apply mapSet_NoDup; [apply (NoDup_app_remove_l _ _ Hnd)|].
        intros H. apply Hfresh, (Hlive next), in_or_app. right. exact H.
      * intros h Hs Hm. apply mapSet_handles in Hm.
        destruct Hm as [->|Hm].
        -- apply Hfresh, (Hlive next), in_or_app. left. exact Hs.
        -- destruct stock as [h0|]; [|contradiction].
           destruct Hs as [<-|[]].
           inversion Hnd as [|? ? Hnot _]; subst. contradiction.
    + destruct (Hold h H) as [->|H'].
      * apply in_or_app. right. left. reflexivity.
      * apply in_or_app. left. apply (Hlive h H').
    + destruct (Hold h H) as [->|H'].
      * intros H''. apply Hfresh, Hsub, H''.
      * apply (Hlive h H').
    + exact Hstop.
    + intros h H. apply in_or_app. left. apply Hsub, H.
    + intros h H. apply in_app_or in H. destruct H as [H|[<-|[]]].
      * apply Hlt in H. lia.
      * lia.
  - (* the registry is drained *)
    unfold Safe, heldOf in *.
    rewrite opened_app, stopped_app, opened_stopAll, stopped_stopAll.
    simpl. rewrite !app_nil_r. repeat split.
    + apply (NoDup_app_remove_r _ _ Hnd).
    + apply (Hlive h). apply in_or_app. left. exact H.
    + intros H'. apply in_app_or in H'. destruct H' as [H'|H'].
      * apply (Hlive h); [apply in_or_app; left; exact H|exact H'].
      * destruct stock as [h0|]; [|contradiction].
        destruct H as [<-|[]].
        inversion Hnd as [|? ? Hnot _]; subst. contradiction.
    + apply NoDup_app.
      * exact Hstop.
      * apply (NoDup_app_remove_l _ _ Hnd).
      * intros h Hs Hr.
        apply (Hlive h); [apply in_or_app; right; exact Hr|exact Hs].
    + intros h H. apply in_app_or in H. destruct H as [H|H].
      * apply Hsub, H.
      * apply (Hlive h). apply in_or_app. right. exact H.
    + exact Hlt.
  - (* the cleanup *)
    unfold Safe.
    rewrite !opened_app, !stopped_app, opened_stopAll, stopped_stopAll,
      opened_stockStop, stopped_stockStop.
    simpl. rewrite !app_nil_r, <- app_assoc.
    change (match stock with Some h => [h] | None => [] end ++ map snd reg)
      with (heldOf stock reg).
    repeat split.
    + constructor.
    + contradiction.
    + contradiction.
    + apply NoDup_app; [exact Hstop|exact Hnd|].
      intros h Hs Hh. apply (Hlive h Hh), Hs.
    + intros h H. apply in_app_or in H. destruct H as [H|H].
      * apply Hsub, H.
      * apply (Hlive h H).
    + exact Hlt.
Qed.

Lemma Safe_init : Safe (books init).
Proof.
  unfold Safe, books, heldOf. simpl.
  repeat split; try constructor; try contradiction.
Qed.

Lemma run_Safe (events : list Event) (s s' : State) :
  run s events = Some s' -> Safe (books s) -> Safe (books s').
Proof.
  revert s. induction events as [|e events IH]; simpl; intros s H Hs.
  - injection H as <-. exact Hs.
  - destruct (step s e) as [s1|] eqn:E; [|discriminate].
    apply (IH s1 H). apply (Safe_step (step_books _ _ _ E) Hs).
Qed.

(** In every run of the screen no stop capability is invoked twice, and
    those the screen holds are live. *)
Lemma stops_at_most_once (events : list Event) (s : State) :
  run init events = Some s ->
  NoDup (stopped (effects s)) /\
  NoDup (held s) /\
  (forall h, In h (held s) -> live h (effects s)).
Proof.
  intros H. pose proof (run_Safe events init s H Safe_init) as Hs.
  unfold Safe, books in Hs. destruct Hs as (Hnd & Hlive & Hstop & _ & _).
  repeat split; try assumption; apply (Hlive h); assumption.
Qed.

(** *** Effects only grow *)



(** *** Changing the expiration date *)

























(** The list that is fetched can hold a contract of the previous set
    again: when the date that is shown is picked again, A is fetched
    again, and a push on the channel of A that was stopped is merged into
    the new list. *)
Lemma repick_merges_late_push :
  step Sample.shownAB (ExpirationChange "2024-06-21") <> None /\
  run init
    (Sample.showAB ++
     [ExpirationChange "2024-06-21";
      Settle 0 (Contracts (P.Ok [Sample.optA; Sample.optB]))])
  = Some Sample.repicked /\
  In 1 (stopped (effects Sample.repicked)) /\
  map P.lastPrice (options (view Sample.repicked)) = [5%Q; 5%Q] /\
  step Sample.repicked (OptionPush 1 (Sample.lastPriceIs 9))
  = Some Sample.repickedMerged /\
  map P.lastPrice (options (view Sample.repickedMerged)) = [9%Q; 5%Q].
Proof.
  split; [vm_compute; discriminate|].
  split; [vm_compute; reflexivity|].
  split; [simpl; auto|]. split; [reflexivity|].
  split; [vm_compute; reflexivity|reflexivity].
Qed.

(** *** Unmounting *)

(** The cleanup invokes the stop capability of the stock subscription,
    when one is stored, and each one the registry holds, and empties both
    refs. *)
Lemma cleanup_stops_all (s : State) :
  effects (cleanup s) =
    (effects s ++ stockStop (stockPriceUnsubscribeRef s))
      ++ stopAll (optionUnsubscribesRef s) /\
  stockPriceUnsubscribeRef (cleanup s) = None /\
  optionUnsubscribesRef (cleanup s) = [] /\
  (forall h, In h (held s) -> In h (stopped (effects (cleanup s)))).
Proof.
  assert (H : effects (cleanup s) =
                (effects s ++ stockStop (stockPriceUnsubscribeRef s))
                  ++ stopAll (optionUnsubscribesRef s) /\
              stockPriceUnsubscribeRef (cleanup s) = None /\
              optionUnsubscribesRef (cleanup s) = []).
  { unfold cleanup.
    destruct (stockPriceUnsubscribeRef s) as [h|] eqn:E; simpl.
    - auto.
    - rewrite E, app_nil_r. auto. }
  destruct H as (Heff & Hstock & Hreg).
  split; [exact Heff|]. split; [exact Hstock|]. split; [exact Hreg|].
  intros h Hh. rewrite Heff, !stopped_app, stopped_stockStop,
    stopped_stopAll, <- app_assoc.
  apply in_or_app. right. exact Hh.
Qed.

(** Once the screen is unmounted and no function is suspended, nothing
    changes any more. *)
Lemma step_after_teardown (s s' : State) (e : Event) :
  unmounted s = true -> pending s = [] -> step s e = Some s' -> s' = s.
Proof.
  intros Hu Hp.
  destruct e as [i v|expDate|ty|text|h stockData|h update|]; simpl;
    unfold interactive; rewrite ?Hu, ?Hp; simpl; try discriminate.
  - destruct i; discriminate.
  - destruct (isStockHandle h (effects s)); [|discriminate].
    intros H. injection H as <-.
    unfold setStockPrice, setView. rewrite Hu. reflexivity.
  - destruct (contractOf h (effects s)); [|discriminate].
    intros H. injection H as <-.
    unfold setOptions, setView. rewrite Hu. reflexivity.
Qed.

Lemma run_after_teardown (events : list Event) (s s' : State) :
  unmounted s = true -> pending s = [] -> run s events = Some s' -> s' = s.
Proof.
  intros Hu Hp. induction events as [|e events IH]; simpl.
  - intros H. injection H as <-. reflexivity.
  - destruct (step s e) as [s1|] eqn:E; [|discriminate].
    rewrite (step_after_teardown s s1 e Hu Hp E). exact IH.
Qed.

(** C9 on a run the screen can have: the screen is unmounted while
    [loadOptionsData] awaits the contracts. The cleanup finds the registry
    empty; the suspended function then goes on, subscribes to contract A
    and stores the stop capability 1 in the registry. The screen is gone,
    the capability is live, and nothing that can still happen invokes
    it. *)
Theorem unmount_while_loading_abandons :
  exists s,
    run init Sample.unmountWhileLoading = Some s /\
    unmounted s = true /\
    pending s = [] /\
    optionUnsubscribesRef s = [("A", 1)] /\
    effects s = [OpenedStock 0; Stopped 0; OpenedOption "A" 1] /\
    live 1 (effects s) /\
    (forall events s', run s events = Some s' -> live 1 (effects s')).
Proof.
  exists Sample.leaked.
  split; [vm_compute; reflexivity|]. split; [reflexivity|].
  split; [reflexivity|]. split; [reflexivity|]. split; [reflexivity|].
  assert (Hl : live 1 (effects Sample.leaked)).
  { split; simpl; [auto|]. intros [H|[]]. discriminate. }
  split; [exact Hl|].
  intros events s' Hrun.
  apply run_after_teardown in Hrun; [|reflexivity|reflexivity].
  subst s'. exact Hl.
Qed.

(** A second subscription for a symbol the registry holds takes the place
    of the first: with contract A listed twice, the stop capability 1 is
    replaced by 2, and the cleanup invokes 0 and 2 only. *)
Lemma listed_twice_abandons :
  exists s,
    run init Sample.listedTwice = Some s /\
    effects s =
      [OpenedStock 0; OpenedOption "A" 1; OpenedOption "A" 2;
       Stopped 0; Stopped 2] /\
    live 1 (effects s).
Proof.
  exists Sample.replaced.
  split; [vm_compute; reflexivity|]. split; [reflexivity|].
  split; simpl; [auto|]. intros [H|[H|[]]]; discriminate.
Qed.

End OptionsChainFacts.

(* ================================================================== *)
(** ** More of the market-data client *)

(** Function to fetch company details. The request is the one of
    [/v3/reference/tickers/{symbol}]; its answer is given as such, and the
    computation is followed by its outcome. A field of [results] the
    provider leaves out is [None] and is copied as it is; [logoUrl] is
    [null] ([None]) when [branding?.logo_url] is falsy. *)
Module Company.
Import Polygon.

Record Address := {
  address1 : option string;
  city : option string;
  state : option string;
  postal_code : option string
}.

Record Branding := { logo_url : option string }.

Record results := {
  name : option string;
  description : option string;
  sic_description : option string;
  market_cap : option Q;
  total_employees : option Q;
  homepage_url : option string;
  branding : option Branding;
  address : option Address;
  primary_exchange : option string;
  type : option string
}.

Module Details.
Record t := {
  name : option string;
  description : option string;
  industry : option string;
  marketCap : option Q;
  employees : option Q;
  website : option string;
  logoUrl : option string;
  address : option Address;
  exchange : option string;
  type : option string
}.
End Details.

Definition fetchCompanyDetails
    (answer : string -> Result (Body results)) (symbol : string)
  : Result Details.t :=
  match answer symbol with
  | Ok response =>
      match Polygon.results response with
      | Some r =>
          Ok {| Details.name := name r;
                Details.description := description r;
                Details.industry := sic_description r;
                Details.marketCap := market_cap r;
                Details.employees := total_employees r;
                Details.website := homepage_url r;
                Details.logoUrl :=
                  Js.truthyStr (Js.chain (branding r) logo_url);
                Details.address := address r;
                Details.exchange := primary_exchange r;
                Details.type := type r |}
      | None => Throw (JsError "No company details available")
      end
  | Throw error => Throw error
  end.

End Company.

(** More sample worlds. *)
Module MoreSamples.
Import Polygon.

(** The last trade of a contract is answered, its snapshot is not. *)
Definition halfway : World :=
  {| prevClose := fun _ => Sample.refused;
     tickers := fun _ => Sample.refused;
     aggregates := fun _ _ _ _ _ =>
       Ok {| results := Some [Sample.bar 100 110; Sample.bar 110 120] |};
     contracts := fun _ date => Ok {| results := Some (Sample.expiring date) |};
     lastTrade := fun _ =>
       Ok {| results := Some {| Payload.Trade.p := Some 5%Q |} |};
     snapshot := fun _ => Sample.refused;
     marketStatus := Sample.refused;
     now := "2024-03-01T12:00:00.000Z";
     isoDate := fun t =>
       if Qeq_bool t 1709251200000 then Ok "2024-03-01"
       else Throw (JsError "Invalid time value") |}.

(** A bar whose time stamp is not a time value. *)
Definition badBar : Payload.Agg :=
  {| Payload.t := 99999999999999999; Payload.o := 1; Payload.h := 1;
     Payload.l := 1; Payload.c := 1; Payload.v := 1 |}.

Definition oneBadBar : World :=
  {| prevClose := fun _ => Sample.refused;
     tickers := fun _ => Sample.refused;
     aggregates := fun _ _ _ _ _ =>
       Ok {| results := Some [Sample.bar 100 110; badBar] |};
     contracts := fun _ _ => Sample.refused;
     lastTrade := fun _ => Sample.refused;
     snapshot := fun _ => Sample.refused;
     marketStatus := Sample.refused;
     now := "2024-03-01T12:00:00.000Z";
     isoDate := fun t =>
       if Qeq_bool t 1709251200000 then Ok "2024-03-01"
       else Throw (JsError "Invalid time value") |}.

Definition acme : Company.results :=
  {| Company.name := Some "Acme";
     Company.description := None;
     Company.sic_description := Some "Anvils";
     Company.market_cap := Some 1000%Q;
     Company.total_employees := None;
     Company.homepage_url := None;
     Company.branding := Some {| Company.logo_url := Some "" |};
     Company.address := None;
     Company.primary_exchange := Some "XNYS";
     Company.type := Some "CS" |}.

End MoreSamples.

(* ================================================================== *)
(** ** Further properties of the market-data client *)

Module ClientFacts.
Import Polygon.

(** *** The requests of composed computations *)

Lemma requests_bind {A B} (m : M A) (f : A -> M B) :
  requests (bind m f) =
    requests m ++
    match outcome m with
    | Ok a => requests (f a)
    | Throw _ => []
    end.
Proof.
  destruct m as [sent [a|e]]; simpl.
  - destruct (f a). reflexivity.
  - rewrite app_nil_r. reflexivity.
Qed.

Lemma requests_rethrow {A} (m : M A) :
  requests (tryCatch m (fun error => throw error)) = requests m.
Proof.
  destruct m as [sent [a|e]]; simpl; [|rewrite app_nil_r]; reflexivity.
Qed.

Lemma requests_default {A} (m : M A) (d : A) :
  requests (tryCatch m (fun _ => ret d)) = requests m.
Proof.
  destruct m as [sent [a|e]]; simpl; [|rewrite app_nil_r]; reflexivity.
Qed.

Lemma outcome_default {A} (m : M A) (d : A) :
  outcome (tryCatch m (fun _ => ret d)) =
    match outcome m with
    | Ok a => Ok a
    | Throw _ => Ok d
    end.
Proof. destruct m as [sent [a|e]]; reflexivity. Qed.

(** A failing element makes the whole [map] throw. *)
Lemma mapM_fails {A B} (f : A -> M B) (l : list A) (x : A) (e : Error) :
  In x l -> outcome (f x) = Throw e ->
  exists e', outcome (mapM f l) = Throw e'.
Proof.
  induction l as [|y r IH]; simpl; intros Hin Hx; [contradiction|].
  rewrite PolygonFacts.outcome_bind.
  destruct (outcome (f y)) as [b|e0] eqn:Ey.
  - destruct Hin as [->|Hin]; [congruence|].
    destruct (IH Hin Hx) as (e' & He').
    rewrite PolygonFacts.outcome_bind, He'. exists e'. reflexivity.
  - exists e0. reflexivity.
Qed.

(** *** The enrichment of one contract *)

(** X1. [fetchOptionDetails] asks for the last trade first and for the
    snapshot only when the last trade was answered: one request when the
    first fails, two otherwise. When the last trade is answered and the
    snapshot is not, the price of the trade is dropped with the rest: the
    details are the defaults, last price 0 included. *)
Theorem fetchOptionDetails_short_circuit (w : World) (optionSymbol : string) :
  (forall e, lastTrade w optionSymbol = Throw e ->
     requests (fetchOptionDetails w optionSymbol) =
       [GetLastTrade optionSymbol]) /\
  (forall trade, lastTrade w optionSymbol = Ok trade ->
     requests (fetchOptionDetails w optionSymbol) =
       [GetLastTrade optionSymbol; GetSnapshot optionSymbol]) /\
  (forall trade e, lastTrade w optionSymbol = Ok trade ->
     snapshot w optionSymbol = Throw e ->
     outcome (fetchOptionDetails w optionSymbol) = Ok defaultDetails /\
     Details.lastPrice defaultDetails = 0%Q).
Proof.
  unfold fetchOptionDetails. rewrite requests_default.
  unfold get, bind, requests, outcome. split; [|split].
  - intros e ->. reflexivity.
  - intros trade ->. destruct (snapshot w optionSymbol); reflexivity.
  - intros trade e -> ->. split; reflexivity.
Qed.

(** A trade at 5 and no snapshot: two requests, last price 0. *)
Lemma fetchOptionDetails_short_circuit_witness :
  requests (fetchOptionDetails MoreSamples.halfway "O:AAPL240621C00150000")
  = [GetLastTrade "O:AAPL240621C00150000";
     GetSnapshot "O:AAPL240621C00150000"] /\
  outcome (fetchOptionDetails MoreSamples.halfway "O:AAPL240621C00150000")
  = Ok defaultDetails.
Proof.
  destruct (fetchOptionDetails_short_circuit MoreSamples.halfway
              "O:AAPL240621C00150000") as (_ & H2 & H3).
  exact (conj (H2 _ eq_refl) (proj1 (H3 _ _ eq_refl eq_refl))).
Defined.

(** *** The fan-out of [fetchOptionsData] *)

(** The last trade of the contract of [row] is answered. *)
Definition answered (w : World) (row : Payload.Contract) : bool :=
  match lastTrade w (Payload.ticker row) with
  | Ok _ => true
  | Throw _ => false
  end.

Definition lastTradeRequests (rows : list Payload.Contract) : list Request :=
  map (fun row => GetLastTrade (Payload.ticker row)) rows.

Definition snapshotRequests (w : World) (rows : list Payload.Contract)
  : list Request :=
  map (fun row => GetSnapshot (Payload.ticker row)) (filter (answered w) rows).

(** The requests of the enrichment of [rows]: the last trade of every row,
    and then the snapshot of every row whose last trade was answered. *)
Definition enrichmentRequests (w : World) (rows : list Payload.Contract)
  : list Request :=
  lastTradeRequests rows ++ snapshotRequests w rows.

Lemma enrichmentRequests_bound (w : World) (rows : list Payload.Contract) :
  List.length rows <= List.length (enrichmentRequests w rows)
  <= 2 * List.length rows.
Proof.
  unfold enrichmentRequests, lastTradeRequests, snapshotRequests.
  rewrite length_app, !length_map.
  pose proof (filter_length_le (answered w) rows). lia.
Qed.

(** Branches that send one request each, and some of them a second one:
    the first requests make the first round and the second requests the
    second. *)
Lemma rounds_two_phase {A} (first second : A -> Request) (again : A -> bool)
    (l : list A) :
  rounds (map (fun x => first x :: if again x then [second x] else []) l) =
    match l with
    | [] => []
    | _ :: _ =>
        map first l ::
        match filter again l with
        | [] => []
        | kept => [map second kept]
        end
    end.
Proof.
  induction l as [|x r IH]; [reflexivity|].
  change (rounds (map (fun x => first x :: if again x then [second x] else [])
                      (x :: r)))
    with (zipCons (first x :: if again x then [second x] else [])
            (rounds (map (fun x => first x ::
                                   if again x then [second x] else []) r))).
  rewrite IH. clear IH.
  destruct r as [|y r].
  - simpl. destruct (again x); reflexivity.
  - cbn [zipCons map]. f_equal.
    cbn [filter]. destruct (again x).
    + destruct (if again y then y :: filter again r else filter again r);
        reflexivity.
    + destruct (if again y then y :: filter again r else filter again r);
        reflexivity.
Qed.

Lemma concat_two_phase {A} (first second : A -> Request) (again : A -> bool)
    (l : list A) :
  List.concat
    (rounds (map (fun x => first x :: if again x then [second x] else []) l))
  = map first l ++ map second (filter again l).
Proof.
  rewrite rounds_two_phase. destruct l as [|x r]; [reflexivity|].
  destruct (filter again (x :: r)); simpl; rewrite ?app_nil_r; reflexivity.
Qed.

(** The requests of the enrichment of one row. *)
Lemma enrich_requests (w : World) (option : Payload.Contract) :
  requests (details <- fetchOptionDetails w (Payload.ticker option) ;;
            ret (toOptionData option details))
  = GetLastTrade (Payload.ticker option) ::
    if answered w option then [GetSnapshot (Payload.ticker option)] else [].
Proof.
  rewrite requests_bind.
  destruct (PolygonFacts.fetchOptionDetails_total w (Payload.ticker option))
    as (d & Hd).
  rewrite Hd. cbn [requests ret fst]. rewrite app_nil_r.
  unfold fetchOptionDetails. rewrite requests_default.
  unfold get, bind, requests, answered.
  destruct (lastTrade w (Payload.ticker option)); [|reflexivity].
  destruct (snapshot w (Payload.ticker option)); reflexivity.
Qed.

Lemma promiseAll_enrich_requests (w : World) (rows : list Payload.Contract) :
  requests
    (promiseAll
       (fun option =>
          details <- fetchOptionDetails w (Payload.ticker option) ;;
          ret (toOptionData option details))
       rows)
  = enrichmentRequests w rows.
Proof.
  unfold promiseAll, requests at 1. cbn [fst]. rewrite map_map.
  rewrite (map_ext _ _ (enrich_requests w)).
  apply (concat_two_phase
           (fun row => GetLastTrade (Payload.ticker row))
           (fun row => GetSnapshot (Payload.ticker row))
           (answered w)).
Qed.

(** The requests of the listing and of the enrichment, for a date that is
    already known. *)
Lemma listing_requests (w : World) (underlying expDate : string) :
  requests
    (response <- get (GetContracts underlying (Some expDate))
                     (contracts w underlying (Some expDate)) ;;
     match results response with
     | Some ((_ :: _) as rows) =>
         promiseAll
           (fun option =>
              details <- fetchOptionDetails w (Payload.ticker option) ;;
              ret (toOptionData option details))
           rows
     | _ => ret []
     end)
  = GetContracts underlying (Some expDate) ::
    match contracts w underlying (Some expDate) with
    | Ok body =>
        match results body with
        | Some rows => enrichmentRequests w rows
        | None => []
        end
    | Throw _ => []
    end.
Proof.
  rewrite requests_bind. unfold get at 1 2. simpl.
  destruct (contracts w underlying (Some expDate)) as [body|e];
    [|reflexivity].
  destruct (results body) as [[|row rest]|]; try reflexivity.
  f_equal. apply promiseAll_enrich_requests.
Qed.

(** X2. With an expiration date given and the listing answered with [n]
    rows, [fetchOptionsData] sends the listing request, then the last-trade
    request of every row, in the order of the rows, and only then snapshot
    requests: one for each row whose last trade was answered, and no
    other. The snapshot requests are stated up to their order, which is
    that of the arrival of the answers. Between [1 + n] and [1 + 2 n]
    requests are sent in all. *)
Theorem fetchOptionsData_fan_out (w : World) (underlying : string)
    (expirationDate : option string) (expDate : string)
    (body : Body (list Payload.Contract)) (rows : list Payload.Contract) :
  Js.truthyStr expirationDate = Some expDate ->
  contracts w underlying (Some expDate) = Ok body ->
  results body = Some rows ->
  exists snapshots,
    requests (fetchOptionsData w underlying expirationDate) =
      GetContracts underlying (Some expDate) ::
      map (fun row => GetLastTrade (Payload.ticker row)) rows ++ snapshots /\
    Permutation snapshots
      (map (fun row => GetSnapshot (Payload.ticker row))
           (filter (fun row =>
                      match lastTrade w (Payload.ticker row) with
                      | Ok _ => true
                      | Throw _ => false
                      end) rows)) /\
    1 + List.length rows
    <= List.length (requests (fetchOptionsData w underlying expirationDate))
    <= 1 + 2 * List.length rows.
Proof.
  intros Hdate Hbody Hrows.
  assert (H : requests (fetchOptionsData w underlying expirationDate) =
              GetContracts underlying (Some expDate)
                :: enrichmentRequests w rows).
  { unfold fetchOptionsData.
    rewrite requests_rethrow, requests_bind, Hdate.
    cbn [requests outcome ret fst snd app].
    rewrite listing_requests, Hbody, Hrows. reflexivity. }
  exists (snapshotRequests w rows). split; [exact H|].
  split; [apply Permutation_refl|]. rewrite H. simpl.
  pose proof (enrichmentRequests_bound w rows). lia.
Qed.

(** Three rows, the last trade of the second is not answered: the listing,
    three last trades, and the snapshots of the first and the third. *)
Lemma fetchOptionsData_fan_out_witness :
  exists snapshots,
    requests (fetchOptionsData Sample.market "AAPL" (Some "2024-06-21")) =
      [ GetContracts "AAPL" (Some "2024-06-21");
        GetLastTrade "O:AAPL240621C00150000";
        GetLastTrade "O:AAPL240621P00150000";
        GetLastTrade "O:AAPL240621C00155000" ] ++ snapshots /\
    Permutation snapshots
      [ GetSnapshot "O:AAPL240621C00150000";
        GetSnapshot "O:AAPL240621C00155000" ].
Proof.
  destruct (@fetchOptionsData_fan_out Sample.market "AAPL"
              (Some "2024-06-21") "2024-06-21"
              {| results := Some (Sample.expiring (Some "2024-06-21")) |}
              (Sample.expiring (Some "2024-06-21"))
              eq_refl eq_refl eq_refl)
    as (snapshots & Hreq & Hperm & _).
  exists snapshots. exact (conj Hreq Hperm).
Defined.



(** *** The expiration date that is not given *)

Lemma expirations_of_rows (w : World) (underlying : string)
    (body : Body (list Payload.Contract)) (row : Payload.Contract)
    (rest : list Payload.Contract) :
  contracts w underlying None = Ok body ->
  results body = Some (row :: rest) ->
  requests (fetchOptionsExpirations w underlying) =
    [GetContracts underlying None] /\
  outcome (fetchOptionsExpirations w underlying) =
    Ok (Js.sortStrings
          (Js.filteri firstOccurrence
             (map Payload.expiration_date (row :: rest)))).
Proof.
  intros Hbody Hrows. unfold fetchOptionsExpirations.
  rewrite requests_rethrow, PolygonFacts.outcome_rethrow, requests_bind,
    PolygonFacts.outcome_bind.
  unfold get. simpl. rewrite Hbody, Hrows. split; reflexivity.
Qed.

(** X4. Called without an expiration date, for an underlying whose
    listing has rows, [fetchOptionsData] asks for the expiration dates and
    then for the contracts of the earliest one: a date of the rows that is
    below every other date of the rows in the order of strings. *)
Theorem fetchOptionsData_earliest_expiration (w : World)
    (underlying : string) (expirationDate : option string)
    (body : Body (list Payload.Contract)) (rows : list Payload.Contract) :
  Js.truthyStr expirationDate = None ->
  contracts w underlying None = Ok body ->
  results body = Some rows ->
  rows <> [] ->
  exists expDate later,
    requests (fetchOptionsData w underlying expirationDate) =
      GetContracts underlying None ::
      GetContracts underlying (Some expDate) :: later /\
    In expDate (map Payload.expiration_date rows) /\
    (forall d, In d (map Payload.expiration_date rows) ->
       d = expDate \/ String.ltb expDate d = true).
Proof.
  intros Hdate Hbody Hrows Hne.
  destruct rows as [|row rest]; [congruence|].
  destruct (expirations_of_rows w underlying body row rest Hbody Hrows)
    as (Hreq & Hout).
  set (raw := map Payload.expiration_date (row :: rest)) in *.
  destruct (JsFacts.keepFirst raw) as (Hin & Hnd).
  pose proof (JsFacts.sortStrings_strict _ Hnd) as Hsorted.
  pose proof (JsFacts.sortStrings_perm (Js.filteri firstOccurrence raw))
    as Hperm.
  destruct (Js.sortStrings (Js.filteri firstOccurrence raw))
    as [|first others] eqn:Edates.
  - exfalso.
    assert (Hrow : In (Payload.expiration_date row)
                      (Js.filteri firstOccurrence raw))
      by (apply Hin; left; reflexivity).
    apply (Permutation_in _ (Permutation_sym Hperm)) in Hrow.
    contradiction.
  - exists first. eexists. split; [|split].
    + unfold fetchOptionsData.
      rewrite requests_rethrow, requests_bind, Hdate.
      rewrite requests_bind, PolygonFacts.outcome_bind, Hreq, Hout.
      cbn [requests outcome ret fst snd app].
      rewrite listing_requests. reflexivity.
    + apply Hin. apply (Permutation_in _ Hperm). left. reflexivity.
    + intros d Hd. apply Hin in Hd.
      apply (Permutation_in _ (Permutation_sym Hperm)) in Hd.
      destruct Hd as [Hd|Hd]; [left; symmetry; exact Hd|right].
      inversion Hsorted as [|? ? _ Hall]; subst.
      rewrite Forall_forall in Hall. apply Hall, Hd.
Qed.

(** Rows that expire on 2024-06-21, 2024-03-15, 2024-06-21 and
    2024-06-21: the contracts of 2024-03-15 are asked for. *)
Lemma fetchOptionsData_earliest_expiration_witness :
  exists later,
    requests (fetchOptionsData Sample.market "AAPL" None) =
      GetContracts "AAPL" None ::
      GetContracts "AAPL" (Some "2024-03-15") :: later.
Proof.
  destruct (@fetchOptionsData_earliest_expiration Sample.market "AAPL" None
              {| results := Some Sample.listing |} Sample.listing
              eq_refl eq_refl eq_refl)
    as (expDate & later & Hreq & _ & _).
  - discriminate.
  - exists later.
    assert (E : expDate = "2024-03-15").
    { assert (H : hd_error
                    (tl (requests (fetchOptionsData Sample.market "AAPL"
                                     None)))
                  = Some (GetContracts "AAPL" (Some expDate)))
        by (rewrite Hreq; reflexivity).
      vm_compute in H. congruence. }
    rewrite <- E. exact Hreq.
Defined.

(** *** Historical bars *)

(** X5. [fetchHistoricalPrices] is all or nothing on the dates of its
    bars. When the time stamp of every bar of the answer formats as a
    date, the result has one bar per bar of the answer, in the same order,
    with that date and the same prices and volume. When the time stamp of
    one bar does not, the result is empty, whatever the other bars are. *)
Theorem fetchHistoricalPrices_all_or_nothing (w : World) (symbol : string)
    (timespan : Timespan) (from to : string) (limit : Q)
    (body : Body (list Payload.Agg)) (items : list Payload.Agg) :
  aggregates w symbol timespan from to limit = Ok body ->
  results body = Some items ->
  ((forall item, In item items ->
      exists d, isoDate w (Payload.t item) = Ok d) ->
   exists bars,
     outcome (fetchHistoricalPrices w symbol timespan from to limit)
     = Ok bars /\
     List.length bars = List.length items /\
     forall i item, nth_error items i = Some item ->
       exists bar,
         nth_error bars i = Some bar /\
         isoDate w (Payload.t item) = Ok (History.date bar) /\
         History.open bar = Payload.o item /\
         History.high bar = Payload.h item /\
         History.low bar = Payload.l item /\
         History.close bar = Payload.c item /\
         History.volume bar = Payload.v item) /\
  ((exists item e, In item items /\ isoDate w (Payload.t item) = Throw e) ->
   outcome (fetchHistoricalPrices w symbol timespan from to limit) = Ok []).
Proof.
  intros Hbody Hitems.
  set (toBar := fun item : Payload.Agg =>
         d <- lift (isoDate w (Payload.t item)) ;;
         ret {| History.date := d;
                History.open := Payload.o item;
                History.high := Payload.h item;
                History.low := Payload.l item;
                History.close := Payload.c item;
                History.volume := Payload.v item |}).
  assert (Hout : outcome
                   (fetchHistoricalPrices w symbol timespan from to limit)
                 = match outcome (mapM toBar items) with
                   | Ok bars => Ok bars
                   | Throw _ => Ok []
                   end).
  { unfold fetchHistoricalPrices.
    rewrite outcome_default, PolygonFacts.outcome_bind,
      PolygonFacts.outcome_get, Hbody, Hitems.
    reflexivity. }
  split.
  - intros Hall.
    assert (Htotal : exists bars,
               outcome (mapM toBar items) = Ok bars /\
               Forall2 (fun item bar =>
                          isoDate w (Payload.t item) = Ok (History.date bar) /\
                          History.open bar = Payload.o item /\
                          History.high bar = Payload.h item /\
                          History.low bar = Payload.l item /\
                          History.close bar = Payload.c item /\
                          History.volume bar = Payload.v item) items bars).
    { clear Hout Hitems Hbody.
      induction items as [|item rest IH].
      - exists []. split; [reflexivity|constructor].
      - destruct (Hall item (or_introl eq_refl)) as (d & Hd).
        destruct IH as (bars & Hbars & Hrel);
          [intros x Hx; apply Hall; right; exact Hx|].
        eexists (_ :: bars). split.
        + simpl. rewrite PolygonFacts.outcome_bind.
          unfold toBar at 1. rewrite PolygonFacts.outcome_bind.
          unfold lift, outcome at 1. simpl. rewrite Hd. simpl.
          rewrite PolygonFacts.outcome_bind, Hbars. reflexivity.
        + constructor; [|exact Hrel]. simpl. repeat split. exact Hd. }
    destruct Htotal as (bars & Hbars & Hrel).
    exists bars. rewrite Hout, Hbars. split; [reflexivity|].
    split; [symmetry; apply (Forall2_length Hrel)|].
    intros i item Hi.
    destruct (PolygonFacts.Forall2_nth_error Hrel i item Hi)
      as (bar & Hbar & Hfields).
    exists bar. split; [exact Hbar|exact Hfields].
  - intros (item & e & Hin & Hbad).
    destruct (mapM_fails toBar items item e Hin) as (e' & He').
    + unfold toBar. rewrite PolygonFacts.outcome_bind.
      unfold lift, outcome at 1. simpl. rewrite Hbad. reflexivity.
    + rewrite Hout, He'. reflexivity.
Qed.

(** Two bars that format give two bars; one good bar and one whose time
    stamp does not format give none. *)
Lemma fetchHistoricalPrices_all_or_nothing_witness :
  (exists bars,
     outcome (fetchHistoricalPrices MoreSamples.halfway "AAPL" day
                "2024-01-01" "2024-03-01" 365) = Ok bars /\
     List.length bars = 2) /\
  outcome (fetchHistoricalPrices MoreSamples.oneBadBar "AAPL" day
             "2024-01-01" "2024-03-01" 365) = Ok [].
Proof.
  split.
  - destruct (@fetchHistoricalPrices_all_or_nothing MoreSamples.halfway
                "AAPL" day "2024-01-01" "2024-03-01" 365%Q _ _
                eq_refl eq_refl) as (Hgood & _).
    destruct Hgood as (bars & Hbars & Hlen & _).
    + intros item [<-|[<-|[]]]; eexists; reflexivity.
    + exists bars. exact (conj Hbars Hlen).
  - destruct (@fetchHistoricalPrices_all_or_nothing MoreSamples.oneBadBar
                "AAPL" day "2024-01-01" "2024-03-01" 365%Q _ _
                eq_refl eq_refl) as (_ & Hbad).
    apply Hbad. exists MoreSamples.badBar. eexists.
    split; [right; left; reflexivity|reflexivity].
Defined.

(** *** Quotes *)

Lemma percent_sign (x o : Q) :
  (0 < o)%Q ->
  ((0 < x / o * 100)%Q <-> (0 < x)%Q) /\
  ((x / o * 100 < 0)%Q <-> (x < 0)%Q) /\
  ((x / o * 100 == 0)%Q <-> (x == 0)%Q).
Proof.
  intros Ho.
  assert (Hinv : (0 < / o)%Q) by (apply Qinv_lt_0_compat, Ho).
  unfold Qdiv. set (y := (/ o)%Q) in *. clearbody y.
  assert (Hk : (0 < y * 100)%Q) by lra.
  assert (E : (x * y * 100 == x * (y * 100))%Q) by ring.
  set (k := (y * 100)%Q) in *. clearbody k.
  rewrite E. clear E.
  split; [|split].
  - split; intros H.
    + apply (Qmult_lt_r 0 x k Hk). lra.
    + assert (H' : (0 * k < x * k)%Q) by (apply Qmult_lt_r; assumption).
      lra.
  - split; intros H.
    + apply (Qmult_lt_r x 0 k Hk). lra.
    + assert (H' : (x * k < 0 * k)%Q) by (apply Qmult_lt_r; assumption).
      lra.
  - split; intros H.
    + destruct (Qmult_integral x k H) as [Hx|Hk0]; [exact Hx|lra].
    + rewrite H. ring.
Qed.

(** X6. The quote of [fetchStockPrice] moves with the close: its change
    is positive, negative or zero exactly as the close is above, below or
    at the open, and, for a positive open, so is its percent change. Only
    signs are stated: the code computes the two values in binary64, where
    a difference of finite numbers, its quotient by a positive number and
    the product with 100 have the sign they have here. *)
Theorem fetchStockPrice_direction (w : World) (symbol : string)
    (body : Body (list Payload.Agg)) (row : Payload.Agg)
    (rest : list Payload.Agg) :
  prevClose w symbol = Ok body ->
  results body = Some (row :: rest) ->
  exists quote,
    outcome (fetchStockPrice w symbol) = Ok quote /\
    ((0 < change quote)%Q <-> (Payload.o row < Payload.c row)%Q) /\
    ((change quote < 0)%Q <-> (Payload.c row < Payload.o row)%Q) /\
    ((change quote == 0)%Q <-> (Payload.c row == Payload.o row)%Q) /\
    ((0 < Payload.o row)%Q ->
     ((0 < changePercent quote)%Q <-> (Payload.o row < Payload.c row)%Q) /\
     ((changePercent quote < 0)%Q <-> (Payload.c row < Payload.o row)%Q) /\
     ((changePercent quote == 0)%Q <-> (Payload.c row == Payload.o row)%Q)).
Proof.
  intros Hbody Hrows. unfold fetchStockPrice.
  rewrite PolygonFacts.outcome_rethrow, PolygonFacts.outcome_bind,
    PolygonFacts.outcome_get, Hbody, Hrows.
  eexists. split; [reflexivity|]. simpl.
  split; [split; intros H; lra|].
  split; [split; intros H; lra|].
  split; [split; intros H; lra|].
  intros Ho.
  destruct (percent_sign (Payload.c row - Payload.o row) (Payload.o row) Ho)
    as (Hpos & Hneg & Hzero).
  rewrite Hpos, Hneg, Hzero. repeat split; intros H; lra.
Qed.

(** Open 100, close 110: up, and up in percent. *)
Lemma fetchStockPrice_direction_witness :
  exists quote,
    outcome (fetchStockPrice Sample.market "AAPL") = Ok quote /\
    (0 < change quote)%Q /\
    (0 < changePercent quote)%Q.
Proof.
  destruct (@fetchStockPrice_direction Sample.market "AAPL"
              {| results := Some [Sample.bar 100 110] |}
              (Sample.bar 100 110) [] eq_refl eq_refl)
    as (quote & Hq & Hup & _ & _ & Hsign).
  exists quote. split; [exact Hq|].
  assert (Ho : (0 < Payload.o (Sample.bar 100 110))%Q) by reflexivity.
  assert (Hc : (Payload.o (Sample.bar 100 110) <
                Payload.c (Sample.bar 100 110))%Q) by reflexivity.
  destruct (Hsign Ho) as (Hpos & _).
  exact (conj (proj2 Hup Hc) (proj2 Hpos Hc)).
Defined.

(** *** Company details *)

(** X7. [fetchCompanyDetails] throws what its request threw and throws
    [No company details available] when the answer has no results. With
    results it returns details even if every field of them is missing,
    and the logo of the details is either none or a string that is not
    empty: the logo of the branding, which an absent branding, an absent
    logo and an empty logo all turn into none. *)
Theorem fetchCompanyDetails_cases
    (answer : string -> Result (Body Company.results)) (symbol : string) :
  (forall e, answer symbol = Throw e ->
     Company.fetchCompanyDetails answer symbol = Throw e) /\
  (forall body, answer symbol = Ok body -> results body = None ->
     Company.fetchCompanyDetails answer symbol =
       Throw (JsError "No company details available")) /\
  (forall body r, answer symbol = Ok body -> results body = Some r ->
     exists details,
       Company.fetchCompanyDetails answer symbol = Ok details /\
       Company.Details.industry details = Company.sic_description r /\
       Company.Details.exchange details = Company.primary_exchange r /\
       (forall url, Company.Details.logoUrl details = Some url <->
          url <> "" /\
          exists b, Company.branding r = Some b /\
                    Company.logo_url b = Some url)).
Proof.
  unfold Company.fetchCompanyDetails. split; [|split].
  - intros e ->. reflexivity.
  - intros body -> ->. reflexivity.
  - intros body r -> ->. eexists. split; [reflexivity|]. simpl.
    split; [reflexivity|]. split; [reflexivity|].
    intros url. destruct (Company.branding r) as [b|] eqn:Eb; simpl.
    + destruct (Company.logo_url b) as [u|] eqn:Eu; simpl.
      * destruct (String.eqb_spec u "") as [->|Hne].
        -- split; [discriminate|].
           intros (Hurl & b' & Hb & Hu). injection Hb as <-. congruence.
        -- split.
           ++ intros H. injection H as <-. split; [exact Hne|].
              exists b. split; [reflexivity|exact Eu].
           ++ intros (_ & b' & Hb & Hu). injection Hb as <-. congruence.
      * split; [discriminate|].
        intros (_ & b' & Hb & Hu). injection Hb as <-. congruence.
    + split; [discriminate|].
      intros (_ & b' & Hb & Hu). discriminate.
Qed.

(** A company whose branding has an empty logo: details without a logo. *)
Lemma fetchCompanyDetails_cases_witness :
  exists details,
    Company.fetchCompanyDetails
      (fun _ => Ok {| results := Some MoreSamples.acme |}) "ACME"
    = Ok details /\
    Company.Details.industry details = Some "Anvils".
Proof.
  destruct (fetchCompanyDetails_cases
              (fun _ => Ok {| results := Some MoreSamples.acme |}) "ACME")
    as (_ & _ & H).
  destruct (H _ _ eq_refl eq_refl) as (details & Hd & Hi & _).
  exists details. exact (conj Hd Hi).
Defined.

End ClientFacts.

(* ================================================================== *)
(** ** More of the options-chain screen *)

Module ScreenMore.
Import OptionsChain.

(** [x < y] on numbers. *)
Definition less (x y : Q) : bool := negb (Qle_bool y x).

(** [inTheMoney] of [renderOptionItem]: the row of a call is highlighted
    when its strike is below [stockPrice || 0], that of a put when its
    strike is above; [optionType] is the selection of the screen. *)
Definition inTheMoney (optionType : OptionType) (stockPrice : option Q)
    (item : P.OptionData) : bool :=
  match optionType with
  | call => less (P.strikePrice item) (Js.orNum stockPrice 0)
  | put => less (Js.orNum stockPrice 0) (P.strikePrice item)
  end.

(** The list [filteredOptions] denotes. *)
Definition displayed (toString : Q -> string) (optionType : OptionType)
    (filterText : string) (options : list P.OptionData)
  : list P.OptionData :=
  Js.sort byStrike (filter (shown toString optionType filterText) options).

(** The fields of two pushes, the second over the first. *)
Definition orElse {A} (new old : option A) : option A :=
  match new with
  | Some x => Some x
  | None => old
  end.

Definition later (first second : Update.t) : Update.t :=
  {| Update.symbol := orElse (Update.symbol second) (Update.symbol first);
     Update.underlyingSymbol :=
       orElse (Update.underlyingSymbol second)
              (Update.underlyingSymbol first);
     Update.expirationDate :=
       orElse (Update.expirationDate second) (Update.expirationDate first);
     Update.strikePrice :=
       orElse (Update.strikePrice second) (Update.strikePrice first);
     Update.optionType :=
       orElse (Update.optionType second) (Update.optionType first);
     Update.lastPrice :=
       orElse (Update.lastPrice second) (Update.lastPrice first);
     Update.bidPrice :=
       orElse (Update.bidPrice second) (Update.bidPrice first);
     Update.askPrice :=
       orElse (Update.askPrice second) (Update.askPrice first);
     Update.openInterest :=
       orElse (Update.openInterest second) (Update.openInterest first);
     Update.volume := orElse (Update.volume second) (Update.volume first);
     Update.impliedVolatility :=
       orElse (Update.impliedVolatility second)
              (Update.impliedVolatility first);
     Update.greeks := orElse (Update.greeks second) (Update.greeks first) |}.

(** A push that carries a symbol and nothing else. *)
Definition renamedTo (symbol : string) : Update.t :=
  {| Update.symbol := Some symbol;
     Update.underlyingSymbol := None;
     Update.expirationDate := None;
     Update.strikePrice := None;
     Update.optionType := None;
     Update.lastPrice := None;
     Update.bidPrice := None;
     Update.askPrice := None;
     Update.openInterest := None;
     Update.volume := None;
     Update.impliedVolatility := None;
     Update.greeks := None |}.

End ScreenMore.

(* ================================================================== *)
(** ** Further properties of the options-chain screen *)

Module ScreenFacts.
Import OptionsChain ScreenMore.

(** *** Rows in the money *)

Lemma less_lt (x y : Q) : less x y = true <-> (x < y)%Q.
Proof.
  unfold less. rewrite negb_true_iff.
  destruct (Qle_bool y x) eqn:E.
  - apply Qle_bool_iff in E. split; [discriminate|]. intros H. lra.
  - split; [intros _|reflexivity].
    destruct (Qlt_le_dec x y) as [H|H]; [exact H|].
    apply Qle_bool_iff in H. congruence.
Qed.

(** X8. A row is never highlighted both as a call and as a put; at a
    strike equal to the price it is highlighted as neither, at any other
    strike as exactly one of them. While the price is unknown (or 0) a
    call is highlighted only at a negative strike and a put at every
    positive strike. *)
Theorem inTheMoney_exclusive (stockPrice : option Q) (item : P.OptionData) :
  (inTheMoney call stockPrice item = true ->
   inTheMoney put stockPrice item = false) /\
  ((P.strikePrice item == Js.orNum stockPrice 0)%Q ->
   inTheMoney call stockPrice item = false /\
   inTheMoney put stockPrice item = false) /\
  (~ (P.strikePrice item == Js.orNum stockPrice 0)%Q ->
   inTheMoney call stockPrice item = negb (inTheMoney put stockPrice item)) /\
  (Js.orNum stockPrice 0 = 0%Q ->
   (inTheMoney call stockPrice item = true <-> (P.strikePrice item < 0)%Q) /\
   (inTheMoney put stockPrice item = true <-> (0 < P.strikePrice item)%Q)).
Proof.
  unfold inTheMoney.
  set (k := P.strikePrice item). set (p := Js.orNum stockPrice 0).
  split; [|split; [|split]].
  - intros H. apply less_lt in H.
    destruct (less p k) eqn:E; [|reflexivity].
    apply less_lt in E. lra.
  - intros H. split.
    + destruct (less k p) eqn:E; [|reflexivity]. apply less_lt in E. lra.
    + destruct (less p k) eqn:E; [|reflexivity]. apply less_lt in E. lra.
  - intros Hne.
    destruct (less k p) eqn:E1; destruct (less p k) eqn:E2; simpl;
      try reflexivity; exfalso.
    + apply less_lt in E1. apply less_lt in E2. lra.
    + apply Hne. destruct (Q_dec k p) as [[H|H]|H]; [| |exact H].
      * apply less_lt in H. congruence.
      * apply less_lt in H. congruence.
  - intros ->. rewrite !less_lt. tauto.
Qed.

(** With the price unknown, a put at 150 is highlighted and a call at 150
    is not. *)
Lemma inTheMoney_exclusive_witness :
  inTheMoney put None Sample.optB = true /\
  inTheMoney call None Sample.optB = false.
Proof.
  destruct (inTheMoney_exclusive None Sample.optB) as (_ & _ & Hx & Hu).
  destruct (Hu eq_refl) as (_ & Hput).
  assert (P : inTheMoney put None Sample.optB = true)
    by (apply Hput; reflexivity).
  split; [exact P|]. rewrite Hx, P; [reflexivity|]. discriminate.
Defined.

(** *** What is displayed *)

Section Displayed.
Variable toString : Q -> string.

Lemma displayed_In (ty : OptionType) (text : string)
    (options : list P.OptionData) (o : P.OptionData) :
  In o (displayed toString ty text options) <->
  In o options /\ shown toString ty text o = true.
Proof.
  unfold displayed. rewrite <- filter_In.
  split; apply Permutation_in.
  - apply JsFacts.sort_perm.
  - apply Permutation_sym, JsFacts.sort_perm.
Qed.

Lemma displayed_length (ty : OptionType) (text : string)
    (options : list P.OptionData) :
  List.length (displayed toString ty text options) =
  List.length (filter (shown toString ty text) options).
Proof. apply Permutation_length, JsFacts.sort_perm. Qed.

Lemma shown_type (ty : OptionType) (text : string) (o : P.OptionData) :
  shown toString ty text o = true -> P.optionType o = typeName ty.
Proof.
  unfold shown. rewrite andb_true_iff, String.eqb_eq. tauto.
Qed.

Lemma exclusive_filters {A} (p q : A -> bool) (l : list A) :
  (forall x, p x = true -> q x = false) ->
  List.length (filter p l) + List.length (filter q l) <= List.length l.
Proof.
  intros Hpq. induction l as [|x r IH]; simpl; [lia|].
  destruct (p x) eqn:Ep.
  - rewrite (Hpq x Ep). simpl. lia.
  - destruct (q x); simpl; lia.
Qed.

(** X9. The two selections of the screen share no row: a contract that is
    displayed under Calls is not displayed under Puts, the two lists
    together are no longer than the option list, and a contract whose
    type is neither ['call'] nor ['put'] is displayed under neither,
    whatever the filter text. *)
Theorem displayed_by_type (text : string) (options : list P.OptionData) :
  (forall o, In o (displayed toString call text options) ->
     ~ In o (displayed toString put text options)) /\
  List.length (displayed toString call text options) +
  List.length (displayed toString put text options)
  <= List.length options /\
  (forall o ty, P.optionType o <> "call" -> P.optionType o <> "put" ->
     ~ In o (displayed toString ty text options)).
Proof.
  split; [|split].
  - intros o Hc Hp.
    apply displayed_In in Hc. apply displayed_In in Hp.
    destruct Hc as (_ & Hc). destruct Hp as (_ & Hp).
    apply shown_type in Hc. apply shown_type in Hp.
    simpl in Hc, Hp. congruence.
  - rewrite !displayed_length. apply exclusive_filters.
    intros o Hc. apply shown_type in Hc.
    destruct (shown toString put text o) eqn:Hp; [|reflexivity].
    apply shown_type in Hp. simpl in Hc, Hp. congruence.
  - intros o ty Hnc Hnp Hin. apply displayed_In in Hin.
    destruct Hin as (_ & Hs). apply shown_type in Hs.
    destruct ty; simpl in Hs; congruence.
Qed.

Lemma append_assoc (a b c : string) :
  ((a ++ b) ++ c = a ++ (b ++ c))%string.
Proof. induction a as [|ch a IH]; simpl; [|rewrite IH]; reflexivity. Qed.

Lemma includes_trans (s t u : string) :
  Js.includes s t = true -> Js.includes t u = true ->
  Js.includes s u = true.
Proof.
  rewrite !JsFacts.includes_spec.
  intros (a & b & ->) (c & d & ->).
  exists (a ++ c)%string, (d ++ b)%string.
  rewrite !append_assoc. reflexivity.
Qed.

Lemma includes_in_empty (t : string) : Js.includes "" t = true -> t = "".
Proof.
  rewrite JsFacts.includes_spec. intros (a & b & H).
  destruct a; [|discriminate]. destruct t; [reflexivity|discriminate].
Qed.

(** X10. Typing on narrows the display: when the filter text is part of
    a longer filter text, every contract displayed for the longer text is
    displayed for the shorter one, so the list for the longer text is no
    longer than the list for the shorter. *)
Theorem filter_narrows (ty : OptionType) (text longer : string)
    (options : list P.OptionData) :
  Js.includes longer text = true ->
  (forall o, In o (displayed toString ty longer options) ->
     In o (displayed toString ty text options)) /\
  List.length (displayed toString ty longer options)
  <= List.length (displayed toString ty text options).
Proof.
  intros Hpart.
  assert (Hshown : forall o, shown toString ty longer o = true ->
                             shown toString ty text o = true).
  { intros o. unfold shown.
    rewrite !andb_true_iff, !orb_true_iff, !String.eqb_eq.
    intros (Hty & [[Hl|Hl]|Hl]); (split; [exact Hty|]).
    - subst longer. left. left. apply includes_in_empty, Hpart.
    - left. right. apply (includes_trans _ _ _ Hl Hpart).
    - right. apply (includes_trans _ _ _ Hl Hpart). }
  split.
  - intros o Ho. apply displayed_In in Ho. apply displayed_In.
    destruct Ho as (Hin & Hs). split; [exact Hin|apply Hshown, Hs].
  - rewrite !displayed_length. clear Hpart.
    induction options as [|o r IH]; simpl; [lia|].
    destruct (shown toString ty longer o) eqn:E.
    + rewrite (Hshown o E). simpl. lia.
    + destruct (shown toString ty text o); simpl; lia.
Qed.

End Displayed.

(** Calls filtered by [15] and then by [155]. *)
Lemma filter_narrows_witness :
  List.length (displayed Sample.decimal call "155"
                 [Sample.optA; Sample.optB; Sample.optC; Sample.optD])
  <= List.length (displayed Sample.decimal call "15"
                    [Sample.optA; Sample.optB; Sample.optC; Sample.optD]).
Proof.
  exact (proj2 (@filter_narrows Sample.decimal call "15" "155"
                  [Sample.optA; Sample.optB; Sample.optC; Sample.optD]
                  eq_refl)).
Defined.

(** *** Pushes one after the other *)

Lemma over_orElse {A} (new old : option A) (x : A) :
  over (orElse new old) x = over new (over old x).
Proof. destruct new, old; reflexivity. Qed.

Lemma over_twice {A} (new : option A) (x : A) :
  over new (over new x) = over new x.
Proof. destruct new; reflexivity. Qed.

Lemma spread_later (opt : P.OptionData) (first second : Update.t) :
  spread (spread opt first) second = spread opt (later first second).
Proof.
  unfold spread, later. simpl. rewrite !over_orElse. reflexivity.
Qed.

Lemma spread_twice (opt : P.OptionData) (update : Update.t) :
  spread (spread opt update) update = spread opt update.
Proof. unfold spread. simpl. rewrite !over_twice. reflexivity. Qed.

(** X11. Merging the same push twice is merging it once. Merging a push
    and then another push of the same subscription is merging the one
    push that has the fields of the second over those of the first,
    provided the first push does not carry another symbol than the
    subscribed one. *)
Theorem mergeUpdate_composes (subscribed : string)
    (first second : Update.t) (options : list P.OptionData) :
  mergeUpdate subscribed first (mergeUpdate subscribed first options) =
    mergeUpdate subscribed first options /\
  (Update.symbol first = None \/ Update.symbol first = Some subscribed ->
   mergeUpdate subscribed second (mergeUpdate subscribed first options) =
     mergeUpdate subscribed (later first second) options).
Proof.
  unfold mergeUpdate. split.
  - rewrite map_map. apply map_ext. intros opt.
    destruct (String.eqb_spec (P.symbol opt) subscribed) as [E|E].
    + destruct (String.eqb_spec (P.symbol (spread opt first)) subscribed).
      * apply spread_twice.
      * reflexivity.
    + destruct (String.eqb_spec (P.symbol opt) subscribed); congruence.
  - intros Hsym. rewrite map_map. apply map_ext. intros opt.
    destruct (String.eqb_spec (P.symbol opt) subscribed) as [E|E].
    + assert (Hkeep : P.symbol (spread opt first) = subscribed)
        by (simpl; destruct Hsym as [->| ->]; simpl; congruence).
      rewrite Hkeep, String.eqb_refl. apply spread_later.
    + destruct (String.eqb_spec (P.symbol opt) subscribed); congruence.
Qed.

(** A last price of 9 and then one of 7 for A. *)
Lemma mergeUpdate_composes_witness :
  mergeUpdate "A" (Sample.lastPriceIs 7)
    (mergeUpdate "A" (Sample.lastPriceIs 9) [Sample.optA; Sample.optB]) =
  mergeUpdate "A" (Sample.lastPriceIs 7) [Sample.optA; Sample.optB].
Proof.
  exact (proj2 (mergeUpdate_composes "A" (Sample.lastPriceIs 9)
                  (Sample.lastPriceIs 7) [Sample.optA; Sample.optB])
               (or_introl eq_refl)).
Defined.

(** X12. A push that carries another symbol than the subscribed one
    renames the records it is merged into, and the subscription has lost
    them: whatever it pushes afterwards changes nothing. *)
Theorem mergeUpdate_detaches (subscribed other : string)
    (first second : Update.t) (options : list P.OptionData) :
  Update.symbol first = Some other ->
  other <> subscribed ->
  (forall opt, In opt (mergeUpdate subscribed first options) ->
     P.symbol opt <> subscribed) /\
  mergeUpdate subscribed second (mergeUpdate subscribed first options) =
    mergeUpdate subscribed first options.
Proof.
  intros Hsym Hne.
  assert (Hnone : forall opt,
             In opt (mergeUpdate subscribed first options) ->
             P.symbol opt <> subscribed).
  { unfold mergeUpdate. intros opt Hin. apply in_map_iff in Hin.
    destruct Hin as (o & <- & _).
    destruct (String.eqb_spec (P.symbol o) subscribed) as [E|E];
      [|exact E].
    simpl. rewrite Hsym. simpl. exact Hne. }
  split; [exact Hnone|].
  apply OptionsChainFacts.mergeUpdate_absent, Hnone.
Qed.

(** A push for A that says its symbol is Z, then a price for A. *)
Lemma mergeUpdate_detaches_witness :
  mergeUpdate "A" (Sample.lastPriceIs 9)
    (mergeUpdate "A" (renamedTo "Z") [Sample.optA; Sample.optB]) =
  mergeUpdate "A" (renamedTo "Z") [Sample.optA; Sample.optB].
Proof.
  apply (@mergeUpdate_detaches "A" "Z" (renamedTo "Z")
           (Sample.lastPriceIs 9) [Sample.optA; Sample.optB] eq_refl).
  discriminate.
Defined.

(** *** A change of expiration date whose fetch fails *)

(** What can happen while a function of the screen is suspended without
    resuming one, starting one or unmounting the screen: the user picks an
    option type or a filter, or a channel delivers a push. *)
Definition passive (e : Event) : bool :=
  match e with
  | OptionTypeChange _ | FilterChange _ | StockPush _ _ | OptionPush _ _ =>
      true
  | _ => false
  end.

Definition isOptionPush (e : Event) : bool :=
  match e with
  | OptionPush _ _ => true
  | _ => false
  end.

(** What a change of expiration date and its failure read and write. *)
Definition frame (s : State)
  : option handle * Registry * bool * list Task * list Effect * nat *
    handle * string * bool * bool :=
  (stockPriceUnsubscribeRef s, optionUnsubscribesRef s, unmounted s,
   pending s, effects s, alerts s, nextHandle s,
   selectedExpiration (view s), loadingOptions (view s), loading (view s)).

Lemma passive_setView (f : View -> View) (s : State) :
  (forall v, selectedExpiration (f v) = selectedExpiration v /\
             loadingOptions (f v) = loadingOptions v /\
             loading (f v) = loading v) ->
  frame (setView f s) = frame s.
Proof.
  intros H. unfold setView. destruct (unmounted s) eqn:U; [reflexivity|].
  unfold frame. simpl. rewrite U.
  destruct (H (view s)) as (-> & -> & ->). reflexivity.
Qed.

Lemma passive_step (s s' : State) (e : Event) :
  passive e = true -> step s e = Some s' ->
  frame s' = frame s /\
  List.length (options (view s')) = List.length (options (view s)) /\
  (isOptionPush e = false -> options (view s') = options (view s)).
Proof.
  destruct e as [i v|expDate|ty|text|h stockData|h update|]; simpl;
    try discriminate; intros _.
  - destruct (interactive s); [|discriminate]. intros H. injection H as <-.
    unfold setOptionType. split; [apply passive_setView; auto|].
    unfold setView. destruct (unmounted s); auto.
  - destruct (interactive s); [|discriminate]. intros H. injection H as <-.
    unfold setFilterText. split; [apply passive_setView; auto|].
    unfold setView. destruct (unmounted s); auto.
  - destruct (isStockHandle h (effects s)); [|discriminate].
    intros H. injection H as <-.
    unfold setStockPrice. split; [apply passive_setView; auto|].
    unfold setView. destruct (unmounted s); auto.
  - destruct (contractOf h (effects s)); [|discriminate].
    intros H. injection H as <-.
    unfold setOptions. split; [apply passive_setView; auto|].
    unfold setView. destruct (unmounted s); simpl.
    + split; [reflexivity|]. intros; reflexivity.
    + split; [apply length_map|discriminate].
Qed.

Lemma passive_run (events : list Event) (s s' : State) :
  forallb passive events = true -> run s events = Some s' ->
  frame s' = frame s /\
  List.length (options (view s')) = List.length (options (view s)) /\
  (existsb isOptionPush events = false ->
   options (view s') = options (view s)).
Proof.
  revert s. induction events as [|e events IH]; simpl; intros s Hp Hrun.
  - injection Hrun as <-. auto.
  - destruct (step s e) as [s1|] eqn:E; [|discriminate].
    apply andb_prop in Hp. destruct Hp as (He & Hp).
    destruct (passive_step s s1 e He E) as (F1 & L1 & O1).
    destruct (IH s1 Hp Hrun) as (F2 & L2 & O2).
    split; [congruence|]. split; [congruence|].
    intros Hno. apply orb_false_elim in Hno. destruct Hno as (Hn1 & Hn2).
    rewrite (O2 Hn2). apply O1, Hn1.
Qed.

(** X13. When no function of the screen is suspended and the user picks
    an expiration date, and the fetch of its contracts fails before another
    date is picked or the screen is unmounted, whatever option types and
    filters are picked and whatever pushes are delivered in between, the
    screen alerts once and leaves its loading state with the picked date
    selected over the option list of before: a list of the same length,
    and the same list when no push for a contract was delivered. No
    subscription is left or made: the registry is empty, every stop
    capability it held has been invoked, none was opened and no function
    is suspended. *)
Theorem failed_change_keeps_stale_list (s s1 u s2 : State)
    (expDate : string) (events : list Event) (e : P.Error) :
  pending s = [] ->
  step s (ExpirationChange expDate) = Some s1 ->
  forallb passive events = true ->
  run s1 events = Some u ->
  step u (Settle 0 (Contracts (P.Throw e))) = Some s2 ->
  selectedExpiration (view s2) = expDate /\
  loadingOptions (view s2) = false /\
  alerts s2 = S (alerts s) /\
  optionUnsubscribesRef s2 = [] /\
  (forall key h, In (key, h) (optionUnsubscribesRef s) ->
     In h (stopped (effects s2))) /\
  opened (effects s2) = opened (effects s) /\
  pending s2 = [] /\
  options (view s2) = options (view u) /\
  List.length (options (view s2)) = List.length (options (view s)) /\
  (existsb isOptionPush events = false ->
   options (view s2) = options (view s)).
Proof.
  intros Hquiet Hpick Hpassive Hrun Hfail.
  assert (H1 : frame s1 =
               (stockPriceUnsubscribeRef s, [], false,
                [AwaitOptionsData false expDate],
                effects s ++ stopAll (optionUnsubscribesRef s), alerts s,
                nextHandle s, expDate, true, false) /\
               options (view s1) = options (view s)).
  { revert Hpick. destruct s as [v stock reg um pend es al next].
    simpl in Hquiet. subst pend.
    unfold step, interactive. simpl.
    destruct um; simpl; [discriminate|].
    destruct (loading v) eqn:El; simpl; [discriminate|].
    intros H. injection H as <-.
    unfold frame, loadOptionsData, setLoadingOptions, setSelectedExpiration,
      setView, spawn, withPending, emit, withRefs. simpl.
    rewrite El. split; reflexivity. }
  destruct H1 as (F1 & O1).
  destruct (passive_run events s1 u Hpassive Hrun) as (Fu & Lu & Ou).
  rewrite F1 in Fu. rewrite O1 in Lu, Ou. clear F1 O1 Hrun Hpick.
  revert Hfail. destruct u as [v stock reg um pend es al next].
  unfold frame in Fu. simpl in *. injection Fu as -> -> -> -> -> -> -> Hsel Hlo Hl.
  simpl. intros H. injection H as <-.
  unfold finishLoad, setLoadingOptions, setView, alert. simpl.
  split; [exact Hsel|]. repeat split.
  - intros key h Hin.
    rewrite OptionsChainFacts.stopped_app,
      OptionsChainFacts.stopped_stopAll.
    apply in_or_app. right.
    apply (in_map snd (optionUnsubscribesRef s) (key, h) Hin).
  - rewrite OptionsChainFacts.opened_app,
      OptionsChainFacts.opened_stopAll.
    apply app_nil_r.
  - exact Lu.
  - exact Ou.
Qed.

(** With A and B shown, a change to 2024-09-20, a late push for A and a
    fetch that times out: the date is selected over the two contracts of
    before, nothing is subscribed. *)
Lemma failed_change_keeps_stale_list_witness :
  step Sample.shownAB (ExpirationChange "2024-09-20") = Some Sample.switching /\
  run Sample.switching [OptionPush 1 (Sample.lastPriceIs 9)]
  = Some Sample.staleMerged /\
  step Sample.staleMerged
    (Settle 0 (Contracts (P.Throw (P.RequestFailed "timeout"))))
  = Some Sample.fetchFailed /\
  selectedExpiration (view Sample.fetchFailed) = "2024-09-20" /\
  loadingOptions (view Sample.fetchFailed) = false /\
  optionUnsubscribesRef Sample.fetchFailed = [] /\
  pending Sample.fetchFailed = [] /\
  List.length (options (view Sample.fetchFailed)) = 2.
Proof.
  assert (H1 : step Sample.shownAB (ExpirationChange "2024-09-20") =
               Some Sample.switching) by (vm_compute; reflexivity).
  assert (H2 : run Sample.switching [OptionPush 1 (Sample.lastPriceIs 9)] =
               Some Sample.staleMerged) by (vm_compute; reflexivity).
  assert (H3 : step Sample.staleMerged
                 (Settle 0 (Contracts (P.Throw (P.RequestFailed "timeout"))))
               = Some Sample.fetchFailed) by (vm_compute; reflexivity).
  destruct (failed_change_keeps_stale_list Sample.shownAB Sample.switching
              Sample.staleMerged Sample.fetchFailed "2024-09-20"
              [OptionPush 1 (Sample.lastPriceIs 9)]
              (P.RequestFailed "timeout") eq_refl H1 eq_refl H2 H3)
    as (Hsel & Hload & _ & Hreg & _ & _ & Hpend & _ & Hlen & _).
  exact (conj H1 (conj H2 (conj H3 (conj Hsel (conj Hload (conj Hreg
           (conj Hpend Hlen))))))).
Defined.

(** *** A load that runs without interruption *)

(** The state once the subscription for [option] has resolved and its
    stop capability is stored. *)
Definition registered (option : P.OptionData) (s : State) : State :=
  let (unsubscribe, s1) := fresh s in
  let s2 := emit [OpenedOption (P.symbol option) unsubscribe] s1 in
  withRefs (stockPriceUnsubscribeRef s2)
           (mapSet (P.symbol option) unsubscribe (optionUnsubscribesRef s2))
           s2.

Definition subscribedTo (todo : list P.OptionData) (s : State) : State :=
  fold_left (fun s option => registered option s) todo s.

Definition openedFor (entry : string * handle) : Effect :=
  OpenedOption (fst entry) (snd entry).

Lemma subscribe_loop (initial : bool) (todo : list P.OptionData)
    (s : State) :
  pending s = [] ->
  run (subscribeNext initial todo s)
      (repeat (Settle 0 Channel) (List.length todo))
  = Some (finishLoad initial (subscribedTo todo s)).
Proof.
  revert s. induction todo as [|option rest IH]; intros s Hp.
  - reflexivity.
  - destruct s as [v stock reg u pend es al next]. simpl in Hp. subst pend.
    exact (IH (registered option
                 {| view := v; stockPriceUnsubscribeRef := stock;
                    optionUnsubscribesRef := reg; unmounted := u;
                    pending := []; effects := es; alerts := al;
                    nextHandle := next |}) eq_refl).
Qed.

Lemma mapSet_new_key (key : string) (h : handle) (reg : Registry) :
  ~ In key (map fst reg) -> mapSet key h reg = reg ++ [(key, h)].
Proof.
  induction reg as [|[k v] reg IH]; simpl; intros Hn; [reflexivity|].
  destruct (String.eqb_spec k key) as [->|_].
  - exfalso. apply Hn. left. reflexivity.
  - rewrite IH; [reflexivity|]. intros H. apply Hn. right. exact H.
Qed.

Lemma subscribedTo_parts (todo : list P.OptionData) (s : State) :
  view (subscribedTo todo s) = view s /\
  pending (subscribedTo todo s) = pending s /\
  unmounted (subscribedTo todo s) = unmounted s /\
  stockPriceUnsubscribeRef (subscribedTo todo s) =
    stockPriceUnsubscribeRef s /\
  (NoDup (map P.symbol todo) ->
   (forall o, In o todo ->
      ~ In (P.symbol o) (map fst (optionUnsubscribesRef s))) ->
   optionUnsubscribesRef (subscribedTo todo s) =
     optionUnsubscribesRef s ++
     combine (map P.symbol todo) (seq (nextHandle s) (List.length todo)) /\
   effects (subscribedTo todo s) =
     effects s ++
     map openedFor
       (combine (map P.symbol todo)
                (seq (nextHandle s) (List.length todo)))).
Proof.
  revert s. induction todo as [|option rest IH]; intros s.
  - simpl. rewrite !app_nil_r. auto 10.
  - unfold subscribedTo. simpl fold_left.
    fold (subscribedTo rest (registered option s)).
    destruct (IH (registered option s)) as (Hv & Hp & Hu & Hs & Hrest).
    split; [rewrite Hv; reflexivity|]. split; [rewrite Hp; reflexivity|].
    split; [rewrite Hu; reflexivity|]. split; [rewrite Hs; reflexivity|].
    intros Hnd Hfresh. simpl in Hnd.
    inversion Hnd as [|? ? Hnotin Hnd']; subst.
    assert (Hnew : ~ In (P.symbol option)
                        (map fst (optionUnsubscribesRef s)))
      by (apply Hfresh; left; reflexivity).
    destruct Hrest as (Hreg & Heff).
    + exact Hnd'.
    + intros o Ho. unfold registered. simpl.
      rewrite (mapSet_new_key _ _ _ Hnew), map_app, in_app_iff. simpl.
      intros [H|[H|[]]].
      * apply (Hfresh o); [right; exact Ho|exact H].
      * apply Hnotin. rewrite H. apply in_map, Ho.
    + rewrite Hreg, Heff. unfold registered. simpl.
      rewrite (mapSet_new_key _ _ _ Hnew), <- !app_assoc. simpl.
      split; reflexivity.
Qed.

Lemma run_app (events events' : list Event) (s s' s'' : State) :
  run s events = Some s' -> run s' events' = Some s'' ->
  run s (events ++ events') = Some s''.
Proof.
  revert s. induction events as [|e events IH]; simpl; intros s H H'.
  - injection H as <-. exact H'.
  - destruct (step s e) as [s1|]; [|discriminate]. apply (IH s1 H H').
Qed.

Lemma snd_combine_seq {A} (keys : list A) (start : nat) :
  map snd (combine keys (seq start (List.length keys))) =
  seq start (List.length keys).
Proof.
  revert start. induction keys as [|k keys IH]; intros start; simpl;
    [|rewrite IH]; reflexivity.
Qed.

(** X14. A change of expiration date that runs without interruption,
    from a screen with nothing suspended and for contracts with distinct
    symbols: the screen shows the fetched contracts, has left its loading
    state and holds one stop capability per contract, in the order of the
    contracts and each opened after the stops of the previous set. An
    unmount then invokes each of them, empties what the screen holds,
    and, in a run of the screen from its start, invokes no stop
    capability twice. *)
Theorem load_in_sequence (s : State) (expDate : string)
    (data : list P.OptionData) :
  interactive s = true ->
  pending s = [] ->
  NoDup (map P.symbol data) ->
  exists s',
    run s (ExpirationChange expDate
             :: Settle 0 (Contracts (P.Ok data))
             :: repeat (Settle 0 Channel) (List.length data))
    = Some s' /\
    options (view s') = data /\
    loadingOptions (view s') = false /\
    pending s' = [] /\
    optionUnsubscribesRef s' =
      combine (map P.symbol data)
              (seq (nextHandle s) (List.length data)) /\
    effects s' =
      (effects s ++ stopAll (optionUnsubscribesRef s))
        ++ map openedFor (optionUnsubscribesRef s') /\
    exists s'',
      step s' Unmount = Some s'' /\
      held s'' = [] /\
      (forall h, In h (seq (nextHandle s) (List.length data)) ->
         In h (stopped (effects s''))) /\
      (forall before, run init before = Some s ->
         NoDup (stopped (effects s''))).
Proof.
  intros Hi Hp Hnd.
  destruct s as [v stock reg u pend es al next]. simpl in Hp. subst pend.
  unfold interactive in Hi. simpl in Hi.
  destruct u; simpl in Hi; [discriminate|].
  destruct (loading v) eqn:El; simpl in Hi; [discriminate|].
  set (v1 := {| stockPrice := stockPrice v; optionType := optionType v;
                expirationDates := expirationDates v;
                selectedExpiration := expDate; options := data;
                loading := loading v; loadingOptions := true;
                filterText := filterText v |}).
  set (s0 := {| view := v1; stockPriceUnsubscribeRef := stock;
                optionUnsubscribesRef := []; unmounted := false;
                pending := []; effects := es ++ stopAll reg; alerts := al;
                nextHandle := next |}).
  assert (Hrun : run {| view := v; stockPriceUnsubscribeRef := stock;
                        optionUnsubscribesRef := reg; unmounted := false;
                        pending := []; effects := es; alerts := al;
                        nextHandle := next |}
                     (ExpirationChange expDate
                        :: Settle 0 (Contracts (P.Ok data))
                        :: repeat (Settle 0 Channel) (List.length data))
                 = Some (finishLoad false (subscribedTo data s0))).
  { cbn [run]. unfold step at 1, interactive.
    cbn [unmounted view negb andb]. rewrite El. cbn [negb andb].
    change (run (subscribeNext false data s0)
                (repeat (Settle 0 Channel) (List.length data))
            = Some (finishLoad false (subscribedTo data s0))).
    apply subscribe_loop. reflexivity. }
  destruct (subscribedTo_parts data s0) as (Hv & Hpend & Hu & Hs & Hparts).
  destruct (Hparts Hnd) as (Hreg & Heff); [intros o _ []|].
  simpl in Hreg, Heff, Hpend, Hu, Hs, Hv.
  set (s1 := subscribedTo data s0) in *.
  assert (Hfin : finishLoad false s1 =
                 {| view := {| stockPrice := stockPrice v1;
                               optionType := optionType v1;
                               expirationDates := expirationDates v1;
                               selectedExpiration := selectedExpiration v1;
                               options := options v1;
                               loading := loading v1;
                               loadingOptions := false;
                               filterText := filterText v1 |};
                    stockPriceUnsubscribeRef := stock;
                    optionUnsubscribesRef := optionUnsubscribesRef s1;
                    unmounted := false;
                    pending := [];
                    effects := effects s1;
                    alerts := alerts s1;
                    nextHandle := nextHandle s1 |}).
  { unfold finishLoad, setLoadingOptions, setView. rewrite Hu, Hv.
    rewrite <- Hs, <- Hpend, <- Hu. reflexivity. }
  exists (finishLoad false s1). split; [exact Hrun|].
  rewrite Hfin. simpl.
  split; [reflexivity|]. split; [reflexivity|]. split; [reflexivity|].
  split; [exact Hreg|]. split; [rewrite Heff, Hreg; reflexivity|].
  eexists. split; [reflexivity|].
  set (s' := {| view := _; stockPriceUnsubscribeRef := stock;
                optionUnsubscribesRef := optionUnsubscribesRef s1;
                unmounted := false; pending := []; effects := effects s1;
                alerts := alerts s1; nextHandle := nextHandle s1 |}).
  destruct (OptionsChainFacts.cleanup_stops_all s')
    as (_ & Hstock' & Hreg' & Hstops).
  split; [|split].
  - change (held (markUnmounted (cleanup s'))) with (held (cleanup s')).
    unfold held. rewrite Hstock', Hreg'. reflexivity.
  - intros h Hh.
    change (effects (markUnmounted (cleanup s')))
      with (effects (cleanup s')).
    apply Hstops. unfold held. apply in_or_app. right.
    change (optionUnsubscribesRef s') with (optionUnsubscribesRef s1).
    rewrite Hreg, <- (length_map P.symbol data), snd_combine_seq,
      length_map. exact Hh.
  - intros before Hbefore.
    assert (Hall : run init
                     (before ++
                      (ExpirationChange expDate
                         :: Settle 0 (Contracts (P.Ok data))
                         :: repeat (Settle 0 Channel) (List.length data))
                      ++ [Unmount])
                   = Some (markUnmounted (cleanup s'))).
    { apply (run_app _ _ _ _ _ Hbefore).
      apply (run_app _ _ _ (finishLoad false s1) _ Hrun).
      rewrite Hfin. reflexivity. }
    apply (OptionsChainFacts.stops_at_most_once _ _ Hall).
Qed.

(** With A and B shown, a change to the contracts C and D. *)
Lemma load_in_sequence_witness :
  exists s',
    run Sample.shownAB
        [ ExpirationChange "2024-09-20";
          Settle 0 (Contracts (P.Ok [Sample.optC; Sample.optD]));
          Settle 0 Channel; Settle 0 Channel ] = Some s' /\
    options (view s') = [Sample.optC; Sample.optD] /\
    optionUnsubscribesRef s' = [("C", 3); ("D", 4)].
Proof.
  assert (Hnd : NoDup (map P.symbol [Sample.optC; Sample.optD])).
  { constructor; [intros [H|[]]; discriminate|].
    constructor; [intros []|constructor]. }
  destruct (load_in_sequence Sample.shownAB "2024-09-20"
              [Sample.optC; Sample.optD] eq_refl eq_refl Hnd)
    as (s' & Hrun & Hopt & _ & _ & Hreg & _).
  exists s'. split; [exact Hrun|]. split; [exact Hopt|exact Hreg].
Defined.

(** *** The loading view *)

Lemma step_stays_loaded (s s' : State) (e : Event) :
  loading (view s) = false -> step s e = Some s' ->
  loading (view s') = false.
Proof.
  destruct s as [[sp ot ed se op lo lop ft] stock reg u pend es al next].
  simpl. intros ->.
  destruct e as [i v|expDate|ty|text|h stockData|h update|]; simpl.
  - destruct (nth_error pend i) as [task|]; [|discriminate].
    destruct task as [| | |initial d|initial option rest];
      destruct v as [|[stockData|e]|[dates|e]|[optionsData|e]];
      simpl; try discriminate.
    + intros H. injection H as <-. reflexivity.
    + intros H. injection H as <-. destruct u; reflexivity.
    + intros H. injection H as <-. destruct u; reflexivity.
    + destruct dates as [|first others]; intros H; injection H as <-;
        destruct u; reflexivity.
    + intros H. injection H as <-. destruct u; reflexivity.
    + intros H. injection H as <-.
      destruct optionsData, initial, u; reflexivity.
    + intros H. injection H as <-. destruct initial, u; reflexivity.
    + intros H. injection H as <-. destruct rest, initial, u; reflexivity.
  - unfold interactive. simpl. destruct u; simpl; [discriminate|].
    intros H. injection H as <-. reflexivity.
  - unfold interactive. simpl. destruct u; simpl; [discriminate|].
    intros H. injection H as <-. reflexivity.
  - unfold interactive. simpl. destruct u; simpl; [discriminate|].
    intros H. injection H as <-. reflexivity.
  - destruct (isStockHandle h es); [|discriminate].
    intros H. injection H as <-. destruct u; reflexivity.
  - destruct (contractOf h es); [|discriminate].
    intros H. injection H as <-. destruct u; reflexivity.
  - destruct u; [discriminate|]. intros H. injection H as <-.
    destruct stock; reflexivity.
Qed.

(** X15. Once the screen has left its initial loading view it never
    shows it again: in every run from a state that is not loading, no
    state is loading, whatever is fetched, pushed or picked. *)
Theorem loading_never_returns (events : list Event) (s s' : State) :
  loading (view s) = false ->
  run s events = Some s' ->
  loading (view s') = false.
Proof.
  revert s. induction events as [|e events IH]; simpl; intros s Hl H.
  - injection H as <-. exact Hl.
  - destruct (step s e) as [s1|] eqn:E; [|discriminate].
    apply (IH s1 (step_stays_loaded s s1 e Hl E) H).
Qed.

Lemma loading_never_returns_witness :
  loading (view Sample.fetchFailed) = false.
Proof.
  apply (loading_never_returns
           [ ExpirationChange "2024-09-20";
             OptionPush 1 (Sample.lastPriceIs 9);
             Settle 0 (Contracts (P.Throw (P.RequestFailed "timeout"))) ]
           Sample.shownAB Sample.fetchFailed eq_refl).
  vm_compute. reflexivity.
Defined.

(** *** What the registry holds *)

Lemma contractOf_app (h : handle) (es es' : list Effect) :
  contractOf h (es ++ es') =
    match contractOf h es with
    | Some contract => Some contract
    | None => contractOf h es'
    end.
Proof.
  induction es as [|[h0|c h0|h0] es IH]; simpl; try exact IH.
  - reflexivity.
  - destruct (h0 =? h); [reflexivity|exact IH].
Qed.

Lemma contractOf_stopAll (h : handle) (reg : Registry) :
  contractOf h (stopAll reg) = None.
Proof. induction reg as [|[k v] reg IH]; simpl; auto. Qed.

Lemma contractOf_stockStop (h : handle) (stock : option handle) :
  contractOf h (OptionsChainFacts.stockStop stock) = None.
Proof. destruct stock; reflexivity. Qed.

Lemma mapSet_entries (key : string) (h : handle) (reg : Registry)
    (entry : string * handle) :
  In entry (mapSet key h reg) -> entry = (key, h) \/ In entry reg.
Proof.
  induction reg as [|[k v] reg IH]; simpl.
  - intros [<-|[]]. left. reflexivity.
  - destruct (String.eqb_spec k key) as [->|_]; simpl.
    + intros [<-|H]; auto.
    + intros [<-|H]; auto. destruct (IH H); auto.
Qed.

(** An entry of the registry names the contract its stop capability was
    opened for, and the contracts of capabilities to come are not yet
    known. *)
Definition Truthful (b : OptionsChainFacts.Books) : Prop :=
  let '(_, reg, es, next) := b in
  (forall key h, In (key, h) reg -> contractOf h es = Some key) /\
  (forall h contract, contractOf h es = Some contract -> h < next).

Lemma Truthful_step (b b' : OptionsChainFacts.Books) :
  OptionsChainFacts.BookStep b b' -> Truthful b -> Truthful b'.
Proof.
  intros [b0|stock reg es next|contract stock reg es next
         |stock reg es next|stock reg es next]; [tauto|..];
    intros (Hreg & Hlt); unfold Truthful.
  - split.
    + intros key h Hin. rewrite contractOf_app, (Hreg key h Hin).
      reflexivity.
    + intros h c. rewrite contractOf_app.
      destruct (contractOf h es) as [c0|] eqn:E; [|discriminate].
      intros _. apply Hlt in E. lia.
  - split.
    + intros key h Hin. rewrite contractOf_app.
      apply mapSet_entries in Hin. destruct Hin as [Hin|Hin].
      * injection Hin as -> ->.
        destruct (contractOf next es) as [c0|] eqn:E.
        -- apply Hlt in E. lia.
        -- simpl. rewrite Nat.eqb_refl. reflexivity.
      * rewrite (Hreg key h Hin). reflexivity.
    + intros h c. rewrite contractOf_app.
      destruct (contractOf h es) as [c0|] eqn:E.
      * intros _. apply Hlt in E. lia.
      * simpl. destruct (Nat.eqb_spec next h); [|discriminate].
        intros _. lia.
  - split; [intros key h []|].
    intros h c. rewrite contractOf_app, contractOf_stopAll.
    destruct (contractOf h es) as [c0|] eqn:E; [|discriminate].
    intros _. apply (Hlt h c0 E).
  - split; [intros key h []|].
    intros h c.
    rewrite !contractOf_app, contractOf_stopAll, contractOf_stockStop.
    destruct (contractOf h es) as [c0|] eqn:E; [|discriminate].
    intros _. apply (Hlt h c0 E).
Qed.

Lemma run_Truthful (events : list Event) (s s' : State) :
  run s events = Some s' ->
  Truthful (OptionsChainFacts.books s) ->
  Truthful (OptionsChainFacts.books s').
Proof.
  revert s. induction events as [|e events IH]; simpl; intros s H Hs.
  - injection H as <-. exact Hs.
  - destruct (step s e) as [s1|] eqn:E; [|discriminate].
    apply (IH s1 H).
    apply (Truthful_step _ _ (OptionsChainFacts.step_books _ _ _ E) Hs).
Qed.

(** X16. In every run of the screen, the stop capability that the
    registry holds under a symbol is that of a subscription opened for
    this symbol: a push delivered on its channel is merged into the
    records with that symbol. *)
Theorem registry_names_its_contracts (events : list Event) (s : State)
    (key : string) (h : handle) :
  run init events = Some s ->
  In (key, h) (optionUnsubscribesRef s) ->
  contractOf h (effects s) = Some key /\
  (forall update,
     step s (OptionPush h update) =
       Some (setOptions (mergeUpdate key update) s)).
Proof.
  intros Hrun Hin.
  assert (Hinit : Truthful (OptionsChainFacts.books init))
    by (split; [intros k h0 []|intros h0 c; discriminate]).
  pose proof (run_Truthful events init s Hrun Hinit) as (Hreg & _).
  pose proof (Hreg key h Hin) as Hc.
  split; [exact Hc|]. intros update. simpl. rewrite Hc. reflexivity.
Qed.

Lemma registry_names_its_contracts_witness :
  contractOf 2 (effects Sample.shownAB) = Some "B".
Proof.
  assert (Hrun : run init Sample.showAB = Some Sample.shownAB)
    by (vm_compute; reflexivity).
  apply (registry_names_its_contracts Sample.showAB Sample.shownAB "B" 2
           Hrun).
  right. left. reflexivity.
Defined.

(** *** Two changes of expiration date in a row *)

(** X18. When the user picks a date and then another while the first
    fetch is still on its way, and the second fetch is answered before
    the first, the screen ends with the later date selected and the
    contracts of the earlier one in its option list: the answer that
    comes last wins, not the pick that came last. *)
Theorem late_answer_wins (s : State) (first second : string)
    (early late : list P.OptionData) :
  interactive s = true ->
  pending s = [] ->
  exists s',
    run s [ ExpirationChange first;
            ExpirationChange second;
            Settle 1 (Contracts (P.Ok late));
            Settle 0 (Contracts (P.Ok early)) ] = Some s' /\
    selectedExpiration (view s') = second /\
    options (view s') = early.
Proof.
  intros Hi Hp.
  destruct s as [v stock reg u pend es al next]. simpl in Hp. subst pend.
  unfold interactive in Hi. simpl in Hi.
  destruct u; simpl in Hi; [discriminate|].
  destruct (loading v) eqn:El; simpl in Hi; [discriminate|].
  cbn [run]. unfold step at 1, interactive.
  cbn [unmounted view negb andb]. rewrite El. cbn [negb andb].
  unfold loadOptionsData, setLoadingOptions, setSelectedExpiration,
    setView, spawn, withPending, emit, withRefs. simpl.
  rewrite El. simpl.
  destruct late as [|l1 lrest], early as [|e1 erest]; simpl;
    eexists; (split; [reflexivity|]); split; reflexivity.
Qed.

(** With A and B shown: the contracts C and D of the first pick under
    the date of the second. *)
Lemma late_answer_wins_witness :
  exists s',
    run Sample.shownAB
        [ ExpirationChange "2024-09-20";
          ExpirationChange "2024-12-20";
          Settle 1 (Contracts (P.Ok [Sample.optA]));
          Settle 0 (Contracts (P.Ok [Sample.optC; Sample.optD])) ]
    = Some s' /\
    selectedExpiration (view s') = "2024-12-20" /\
    options (view s') = [Sample.optC; Sample.optD].
Proof.
  exact (late_answer_wins Sample.shownAB "2024-09-20" "2024-12-20"
           [Sample.optC; Sample.optD] [Sample.optA] eq_refl eq_refl).
Defined.

End ScreenFacts.

(* ================================================================== *)
(** ** The authentication provider *)

(** [AuthProvider]: the state of the component and the two callbacks that
    write it, the one of [getSession().then(...)] and the listener given
    to [onAuthStateChange]. The session of the authentication service is
    an opaque value, and [router.replace] is recorded as the list of the
    routes it was called with. *)
Module Auth.

Inductive Route :=
| AppHome       (* '/(app)' *)
| Login.        (* '/(auth)/login' *)

Section WithSession.
Variable Session : Type.

Record State := {
  user : option bool;             (* user null = loading *)
  session : option Session;
  replaced : list Route
}.

Definition initial : State :=
  {| user := None; session := None; replaced := [] |}.

(** [session ? true : false] *)
Definition present (s : option Session) : bool :=
  match s with
  | Some _ => true
  | None => false
  end.

(** Get initial session *)
Definition onSession (sess : option Session) (s : State) : State :=
  {| user := Some (present sess);
     session := sess;
     replaced := replaced s |}.

(** Set up auth change listener *)
Definition onAuthStateChange (_event : string) (sess : option Session)
    (s : State) : State :=
  {| user := Some (present sess);
     session := sess;
     replaced :=
       replaced s ++
       (* Navigate based on auth state *)
       match sess with
       | Some _ => [AppHome]
       | None => if (_event =? "SIGNED_OUT")%string then [Login] else []
       end |}.

Inductive Event :=
| GotSession (sess : option Session)
| AuthChange (_event : string) (sess : option Session).

Definition handle (s : State) (e : Event) : State :=
  match e with
  | GotSession sess => onSession sess s
  | AuthChange _event sess => onAuthStateChange _event sess s
  end.

Definition run (s : State) (events : list Event) : State :=
  fold_left handle events s.

End WithSession.
Arguments user {Session} _.
Arguments session {Session} _.
Arguments replaced {Session} _.
Arguments present {Session} s.
Arguments initial {Session}.
Arguments GotSession {Session} sess.
Arguments AuthChange {Session} _event sess.
Arguments handle {Session} s e.
Arguments run {Session} s events.

End Auth.

Module AuthFacts.
Import Auth.

Section WithSession.
Context {Session : Type}.

(** The auth changes that carry a session, and the sign-outs that carry
    none. *)
Definition signIns (events : list (Event Session)) : nat :=
  List.length
    (filter (fun e => match e with
                      | AuthChange _ (Some _) => true
                      | _ => false
                      end) events).

Definition signOuts (events : list (Event Session)) : nat :=
  List.length
    (filter (fun e => match e with
                      | AuthChange ev None => (ev =? "SIGNED_OUT")%string
                      | _ => false
                      end) events).

Definition isApp (r : Route) : bool :=
  match r with AppHome => true | Login => false end.

Definition isLogin (r : Route) : bool :=
  match r with Login => true | AppHome => false end.

Lemma routes_split (routes : list Route) :
  List.length routes =
  List.length (filter isApp routes) + List.length (filter isLogin routes).
Proof. induction routes as [|[|] r IH]; simpl; lia. Qed.

Lemma run_snoc (s : State Session) (events : list (Event Session))
    (e : Event Session) :
  run s (events ++ [e]) = handle (run s events) e.
Proof. unfold run. rewrite fold_left_app. reflexivity. Qed.

Lemma run_routes (events : list (Event Session)) (s : State Session) :
  List.length (filter isApp (replaced (run s events))) =
    List.length (filter isApp (replaced s)) + signIns events /\
  List.length (filter isLogin (replaced (run s events))) =
    List.length (filter isLogin (replaced s)) + signOuts events.
Proof.
  revert s. induction events as [|e events IH]; intros s.
  - unfold signIns, signOuts. simpl. lia.
  - change (run s (e :: events)) with (run (handle s e) events).
    destruct (IH (handle s e)) as (Ha & Hl). rewrite Ha, Hl.
    unfold signIns, signOuts.
    destruct e as [sess|ev [sess|]]; simpl.
    + lia.
    + rewrite !filter_app, !length_app. simpl. lia.
    + destruct (ev =? "SIGNED_OUT")%string; simpl;
        rewrite !filter_app, !length_app; simpl; lia.
Qed.

(** X17. In every sequence of the two session callbacks, [user] is
    [null] exactly as long as none has run and afterwards says whether a
    session is held. The router was sent to the app once for every auth
    change that carried a session and to the login once for every
    [SIGNED_OUT] that carried none, and for nothing else: the initial
    session and an auth change of another kind without a session
    navigate nowhere. *)
Theorem auth_state_and_routes (events : list (Event Session)) :
  (user (run initial events) = None <-> events = []) /\
  (events <> [] ->
   user (run initial events) =
     Some (present (session (run initial events)))) /\
  List.length (filter isApp (replaced (run initial events)))
  = signIns events /\
  List.length (filter isLogin (replaced (run initial events)))
  = signOuts events /\
  List.length (replaced (run initial events))
  = signIns events + signOuts events.
Proof.
  assert (Hlast : events <> [] ->
                  user (run initial events) =
                    Some (present (session (run initial events)))).
  { intros Hne. destruct (exists_last Hne) as (front & e & ->).
    rewrite run_snoc. destruct e; reflexivity. }
  destruct (run_routes events initial) as (Ha & Hl). simpl in Ha, Hl.
  split; [|split; [exact Hlast|split; [exact Ha|split; [exact Hl|]]]].
  - split.
    + intros H. destruct events as [|e events]; [reflexivity|].
      rewrite Hlast in H; [discriminate|discriminate].
    + intros ->. reflexivity.
  - rewrite <- Ha, <- Hl. apply routes_split.
Qed.

End WithSession.

(** A stored session, a token refresh, a sign-out: one visit of the app
    and one of the login. *)
Lemma auth_state_and_routes_witness :
  replaced (run initial
              [ GotSession (Some tt);
                AuthChange "TOKEN_REFRESHED" (Some tt);
                AuthChange "SIGNED_OUT" None ]) = [AppHome; Login] /\
  List.length
    (replaced (run (Session := unit) initial
                 [ GotSession (Some tt);
                   AuthChange "TOKEN_REFRESHED" (Some tt);
                   AuthChange "SIGNED_OUT" None ])) = 2.
Proof.
  split; [reflexivity|].
  destruct (auth_state_and_routes
              [ GotSession (Some tt);
                AuthChange "TOKEN_REFRESHED" (Some tt);
                AuthChange "SIGNED_OUT" None ])
    as (_ & _ & _ & _ & H).
  exact H.
Defined.

End AuthFacts.
